(** * License-header checker ([utils/license.py])

    A shallow embedding of the pre-commit script that verifies that source
    files start with the expected license header, and the properties of its
    two functions, [check_file] and [main].

    Python text ([str]) is a sequence of Unicode code points; a code point is
    an [N].  The file system is a function from the file name handed to
    [open] to what [f.read()] returns or to the exception it raises.  Paths
    are [pathlib] paths of the POSIX flavour. *)

From Stdlib Require Import Ascii String.
From Stdlib Require Import NArith ZArith Bool Lia List.
Import ListNotations.

Local Open Scope N_scope.
Local Open Scope list_scope.

(** ** Text *)

Definition char := N.
Definition str := list char.

(** A literal of the source, as code points. *)
Definition lit (s : string) : str := map N_of_ascii (list_ascii_of_string s).
Arguments lit s%_string.

Definition NL : char := 10.
Definition DQUOTE : char := 34.
Definition SEP : char := 47.
Definition DOT : char := 46.

Definition str_eqb (a b : str) : bool :=
  if list_eq_dec N.eq_dec a b then true else false.

(** [str.isspace] on one code point, as [str.strip()] uses it: the code
    points CPython lists as whitespace. *)
Definition isspace (c : char) : bool :=
  ((0x09 <=? c) && (c <=? 0x0D)) || ((0x1C <=? c) && (c <=? 0x20))
  || (c =? 0x85) || (c =? 0xA0) || (c =? 0x1680)
  || ((0x2000 <=? c) && (c <=? 0x200A))
  || (c =? 0x2028) || (c =? 0x2029) || (c =? 0x202F) || (c =? 0x205F)
  || (c =? 0x3000).

(** [s.lstrip()]: drop the leading run of whitespace. *)
Fixpoint lstrip (s : str) : str :=
  match s with
  | [] => []
  | c :: t => if isspace c then lstrip t else s
  end.

(** [s.rstrip()]: drop the trailing run of whitespace. *)
Definition rstrip (s : str) : str := rev (lstrip (rev s)).

(** [s.strip()]: both ends, of the whole text. *)
Definition strip (s : str) : str := rstrip (lstrip s).

(** [s.startswith(prefix)]. *)
Fixpoint startswith (s prefix : str) {struct prefix} : bool :=
  match prefix with
  | [] => true
  | p :: prefix' =>
      match s with
      | [] => false
      | c :: s' => (c =? p) && startswith s' prefix'
      end
  end.

(** [s.endswith(suffix)]. *)
Definition endswith (s suffix : str) : bool :=
  startswith (rev s) (rev suffix).

(** [s.endswith((a, b, ...))]: one of the tuple's entries is a suffix. *)
Definition endswith_any (s : str) (suffixes : list str) : bool :=
  existsb (endswith s) suffixes.

(** [x in [a, b, ...]] for strings. *)
Definition str_in (x : str) (l : list str) : bool := existsb (str_eqb x) l.

(** [s.lstrip(c)] for a single character [c]. *)
Fixpoint lstrip_char (c : char) (s : str) : str :=
  match s with
  | [] => []
  | x :: t => if x =? c then lstrip_char c t else s
  end.

(** [s.split(c)]: the segments between the occurrences of [c]; never empty. *)
Fixpoint split (c : char) (s : str) : list str :=
  match s with
  | [] => [[]]
  | x :: t =>
      if x =? c then [] :: split c t
      else match split c t with
           | [] => [[x]]
           | seg :: segs => (x :: seg) :: segs
           end
  end.

(** [s.rfind(c)]: the index of the last occurrence of [c], [None] for
    Python's -1. *)
Fixpoint rfind (c : char) (s : str) : option nat :=
  match s with
  | [] => None
  | x :: t =>
      match rfind c t with
      | Some i => Some (S i)
      | None => if x =? c then Some O else None
      end
  end.

(** The body of a triple-quoted literal whose text starts on the line after
    the opening quotes and whose closing quotes stand on a line of their
    own. *)
Definition triple_quoted (lines : list str) : str :=
  NL :: concat (map (fun l => l ++ [NL]) lines).

(** ** The two expected headers *)

Definition JS_LICENSE_TEXT : str :=
  strip (triple_quoted
    [ lit "//===----------------------------------------------------------------------===//";
      lit "// Copyright (c) 2025, Modular Inc. All rights reserved.";
      lit "//";
      lit "// Licensed under the Apache License v2.0 with LLVM Exceptions:";
      lit "// https://llvm.org/LICENSE.txt";
      lit "//";
      lit "// Unless required by applicable law or agreed to in writing, software";
      lit "// distributed under the License is distributed on an "
        ++ [DQUOTE] ++ lit "AS IS" ++ [DQUOTE] ++ lit " BASIS,";
      lit "// WITHOUT WARRANTIES OR CONDITIONS OF ANY KIND, either express or implied.";
      lit "// See the License for the specific language governing permissions and";
      lit "// limitations under the License.";
      lit "//===----------------------------------------------------------------------===//" ]).

Definition PY_YAML_LICENSE_TEXT : str :=
  strip (triple_quoted
    [ lit "# ===----------------------------------------------------------------------=== #";
      lit "# Copyright (c) 2025, Modular Inc. All rights reserved.";
      lit "#";
      lit "# Licensed under the Apache License v2.0 with LLVM Exceptions:";
      lit "# https://llvm.org/LICENSE.txt";
      lit "#";
      lit "# Unless required by applicable law or agreed to in writing, software";
      lit "# distributed under the License is distributed on an "
        ++ [DQUOTE] ++ lit "AS IS" ++ [DQUOTE] ++ lit " BASIS,";
      lit "# WITHOUT WARRANTIES OR CONDITIONS OF ANY KIND, either express or implied.";
      lit "# See the License for the specific language governing permissions and";
      lit "# limitations under the License.";
      lit "# ===----------------------------------------------------------------------=== #" ]).

(** ** Paths ([pathlib], POSIX flavour) *)

(** A parsed path: the root ([""], ["/"] or ["//"]) and the segments after
    it.  The drive is always empty on POSIX and is left out. *)
Record PurePath : Type := mkPath { root : str; parts : list str }.

(** [splitroot]: the root and the rest.  Exactly two leading separators are
    kept as a root of their own, any other number is one separator. *)
Definition splitroot (part : str) : str * str :=
  match part with
  | c :: _ =>
      if c =? SEP then
        let stripped := lstrip_char SEP part in
        if Nat.eqb (length part - length stripped) 2
        then ([SEP; SEP], stripped)
        else ([SEP], stripped)
      else ([], part)
  | [] => ([], [])
  end.

(** A segment is kept when it is neither empty nor ["."]. *)
Definition kept_segment (x : str) : bool :=
  negb (str_eqb x []) && negb (str_eqb x [DOT]).

(** [Path(arg)]. *)
Definition Path (arg : str) : PurePath :=
  let (r, rel) := splitroot arg in
  mkPath r (filter kept_segment (split SEP rel)).

(** [path.name]: the last segment, [""] when there is none. *)
Definition name (p : PurePath) : str := last (parts p) [].

(** [path.suffix]: the name from its last dot on, when that dot is neither
    the first nor the last character of the name. *)
Definition suffix (p : PurePath) : str :=
  let n := name p in
  match rfind DOT n with
  | Some i =>
      if Nat.ltb 0 i && Nat.ltb i (length n - 1) then skipn i n else []
  | None => []
  end.

(** [sep.join(l)]. *)
Fixpoint join (c : char) (l : list str) : str :=
  match l with
  | [] => []
  | [x] => x
  | x :: t => x ++ c :: join c t
  end.

(** [str(path)], which is also [os.fspath(path)], the name [open] uses. *)
Definition fspath (p : PurePath) : str :=
  match root p ++ join SEP (parts p) with
  | [] => [DOT]
  | s => s
  end.

(** [p == q] on paths: same root and same segments. *)
Definition path_eqb (p q : PurePath) : bool :=
  str_eqb (root p) (root q)
  && (if list_eq_dec (list_eq_dec N.eq_dec) (parts p) (parts q)
      then true else false).

(** [p in l] on a list of paths. *)
Definition path_in (p : PurePath) (l : list PurePath) : bool :=
  existsb (fun q => path_eqb p q) l.

(** The spellings the exclusion list is written with. *)
Definition EXCLUDE_NAMES : list str :=
  [ lit ".pre-commit-config.yaml";
    lit "package.json";
    lit "package-lock.json";
    lit "language-configuration.json";
    lit "extension/external/psList.ts";
    lit "extension/server/RpcServer.ts";
    lit "extension/logging.ts";
    lit "esbuild.mjs";
    lit "eslint.config.mjs";
    lit ".vscode-test.mjs" ].

Definition EXCLUDES : list PurePath := map Path EXCLUDE_NAMES.

Definition JS_SUFFIXES : list str := [lit ".js"; lit ".ts"; lit ".mjs"].
Definition PY_YAML_SUFFIXES : list str := [lit ".py"; lit ".mojo"; lit ".yaml"].

(** ** Exceptions and the file system *)

(** The exceptions [open] and [f.read()] raise. *)
Inductive exn : Type :=
| OSError
| UnicodeDecodeError
| ValueError.

(** A call returns a value or raises. *)
Inductive result (A : Type) : Type :=
| Ok (a : A)
| Raise (e : exn).
Arguments Ok {A} a.
Arguments Raise {A} e.

(** What [open(name, "r")] followed by [f.read()] gives for each file name:
    the decoded text, or the exception raised. *)
Definition filesystem := str -> result str.

(** ** [check_file] *)

Definition check_file (fs : filesystem) (path : PurePath) : result bool :=
  match fs (fspath path) with
  | Raise e => Raise e
  | Ok data =>
      let contents := strip data in
      if path_in path EXCLUDES then Ok true
      else if str_in (suffix path) JS_SUFFIXES
              && negb (startswith contents JS_LICENSE_TEXT) then Ok false
      else if str_in (suffix path) PY_YAML_SUFFIXES
              && negb (startswith contents PY_YAML_LICENSE_TEXT) then Ok false
      else Ok true
  end.

(** ** [main] *)

(** How a run ends: [main] returns and the script falls off its end,
    [sys.exit(code)] is called, or an exception leaves [main]. *)
Inductive termination : Type :=
| Completed
| SystemExit (code : Z)
| Uncaught (e : exn).

(** The exit status of the interpreter process: 0 after the script's end,
    the code given to [sys.exit], and 1 after the traceback of an exception
    nobody caught. *)
Definition exit_status (t : termination) : Z :=
  match t with
  | Completed => 0%Z
  | SystemExit code => code
  | Uncaught _ => 1%Z
  end.

(** What one run does: the lines [print] wrote to standard output, how the
    run ended, and the paths [check_file] was called on, in order. *)
Record run : Type := mkRun {
  stdout : list str;
  status : termination;
  checked : list PurePath
}.

(** [print(s)]: one more line on standard output. *)
Definition print (s : str) (out : list str) : list str := out ++ [s].

Definition BANNER : str := lit "Missing license headers".

(** The guard of the loop, negated: an argument goes on to [check_file] when
    the name of its path ends with one of the three suffixes. *)
Definition selected (arg : str) : bool :=
  endswith_any (name (Path arg)) JS_SUFFIXES.

(** The [for arg in sys.argv[1:]] loop, with [failing] and the log of the
    calls of [check_file] as its state. *)
Fixpoint main_loop (fs : filesystem) (args : list str)
    (failing : list str) (log : list PurePath)
  : result (list str) * list PurePath :=
  match args with
  | [] => (Ok failing, log)
  | arg :: rest =>
      if negb (selected arg) then main_loop fs rest failing log
      else
        match check_file fs (Path arg) with
        | Raise e => (Raise e, log ++ [Path arg])
        | Ok ok =>
            if negb ok
            then main_loop fs rest (failing ++ [arg]) (log ++ [Path arg])
            else main_loop fs rest failing (log ++ [Path arg])
        end
  end.

(** [main()], for [sys.argv = argv]. *)
Definition main (fs : filesystem) (argv : list str) : run :=
  match main_loop fs (skipn 1 argv) [] [] with
  | (Raise e, log) => mkRun [] (Uncaught e) log
  | (Ok failing, log) =>
      if Nat.ltb 0 (length failing)
      then mkRun (fold_left (fun out f => print f out) failing (print BANNER []))
                 (SystemExit 1) log
      else mkRun [] Completed log
  end.


(** An argument is reported when it is selected and [check_file] returns
    [False] for it. *)
Definition fails (fs : filesystem) (arg : str) : bool :=
  selected arg
  && match check_file fs (Path arg) with
     | Ok false => true
     | _ => false
     end.

(** Every selected argument of [args] can be opened and read. *)
Definition all_readable (fs : filesystem) (args : list str) : Prop :=
  forall a, In a args -> selected a = true ->
    exists data, fs (fspath (Path a)) = Ok data.

(** Some selected argument of [args] makes [check_file] return [False]. *)
Definition some_fails (fs : filesystem) (args : list str) : Prop :=
  exists a, In a args /\ selected a = true
            /\ check_file fs (Path a) = Ok false.

(** What [Path] builds: one of the three roots, and segments that are kept
    and hold no separator. *)
Definition well_formed (p : PurePath) : Prop :=
  (root p = [] \/ root p = [SEP] \/ root p = [SEP; SEP])
  /\ forall seg, In seg (parts p) ->
       kept_segment seg = true /\ ~ In SEP seg.

(** ** Concrete file systems, for the examples *)

(** The files of a directory given as (name, text) pairs; any other name
    cannot be opened. *)
Fixpoint fs_of (files : list (str * str)) : filesystem :=
  fun n =>
    match files with
    | [] => Raise OSError
    | (k, data) :: rest => if str_eqb n k then Ok data else fs_of rest n
    end.

(** * Properties *)

(** ** Text operations *)

Section Text.

Lemma str_eqb_eq (a b : str) : str_eqb a b = true <-> a = b.
Proof.
  unfold str_eqb. destruct (list_eq_dec N.eq_dec a b); split; congruence.
Qed.

Lemma str_eqb_refl (a : str) : str_eqb a a = true.
Proof. now apply str_eqb_eq. Qed.

Lemma str_in_In (x : str) (l : list str) : str_in x l = true <-> In x l.
Proof.
  unfold str_in. rewrite existsb_exists. split.
  - intros (y & Hy & E). apply str_eqb_eq in E. now subst.
  - intros H. exists x. split; [assumption | apply str_eqb_refl].
Qed.

Lemma str_in_not_In (x : str) (l : list str) :
  ~ In x l -> str_in x l = false.
Proof.
  intros H. destruct (str_in x l) eqn:E; [|reflexivity].
  apply str_in_In in E. contradiction.
Qed.

Lemma lstrip_length (s : str) : (length (lstrip s) <= length s)%nat.
Proof.
  induction s as [|c s IH]; simpl; [lia|].
  destruct (isspace c); simpl; lia.
Qed.

Lemma lstrip_same_length (s : str) :
  length (lstrip s) = length s -> lstrip s = s.
Proof.
  destruct s as [|c s]; simpl; [reflexivity|].
  destruct (isspace c); [|reflexivity].
  intros H. pose proof (lstrip_length s). lia.
Qed.

Lemma rstrip_length (s : str) : (length (rstrip s) <= length s)%nat.
Proof.
  unfold rstrip. rewrite length_rev.
  pose proof (lstrip_length (rev s)) as H. now rewrite length_rev in H.
Qed.

Lemma rstrip_same_length (s : str) :
  length (rstrip s) = length s -> rstrip s = s.
Proof.
  unfold rstrip. rewrite length_rev. intros H.
  rewrite lstrip_same_length; [apply rev_involutive|].
  now rewrite length_rev.
Qed.

Lemma strip_length (s : str) : (length (strip s) <= length s)%nat.
Proof.
  unfold strip. pose proof (rstrip_length (lstrip s)).
  pose proof (lstrip_length s). lia.
Qed.

Lemma strip_same_length (s : str) :
  length (strip s) = length s -> strip s = s.
Proof.
  unfold strip. intros H.
  pose proof (rstrip_length (lstrip s)). pose proof (lstrip_length s).
  assert (E : lstrip s = s) by (apply lstrip_same_length; lia).
  rewrite E in *. now apply rstrip_same_length.
Qed.

(** A text that [lstrip] leaves alone keeps it from eating into what
    follows. *)
Lemma lstrip_app_fixed (a b : str) :
  lstrip b = b -> lstrip (a ++ b) = lstrip a ++ b.
Proof.
  intros Hb. induction a as [|c a IH]; simpl; [assumption|].
  destruct (isspace c); [assumption | reflexivity].
Qed.

Lemma lstrip_headed (h t : str) :
  h <> [] -> lstrip h = h -> lstrip (h ++ t) = h ++ t.
Proof.
  destruct h as [|c h]; [congruence|]. intros _. simpl.
  destruct (isspace c); [|reflexivity].
  intros H. pose proof (lstrip_length h) as L. rewrite H in L. simpl in L. lia.
Qed.

Lemma rstrip_app_fixed (h t : str) :
  rstrip h = h -> rstrip (h ++ t) = h ++ rstrip t.
Proof.
  unfold rstrip. intros Hh. rewrite rev_app_distr.
  rewrite lstrip_app_fixed.
  - now rewrite rev_app_distr, rev_involutive.
  - rewrite <- Hh at 2. now rewrite rev_involutive.
Qed.

Lemma strip_app_fixed (h t : str) :
  h <> [] -> lstrip h = h -> rstrip h = h ->
  strip (h ++ t) = h ++ rstrip t.
Proof.
  intros Hne Hl Hr. unfold strip.
  rewrite lstrip_headed by assumption. now apply rstrip_app_fixed.
Qed.

Lemma startswith_app (p t : str) : startswith (p ++ t) p = true.
Proof.
  induction p as [|c p IH]; simpl; [reflexivity|].
  now rewrite N.eqb_refl.
Qed.

Lemma startswith_prefix (s p : str) :
  startswith s p = true <-> exists t, s = p ++ t.
Proof.
  split.
  - revert s. induction p as [|c p IH]; intros s H.
    + now exists s.
    + destruct s as [|x s]; simpl in H; [discriminate|].
      apply andb_true_iff in H as [E H]. apply N.eqb_eq in E. subst x.
      destruct (IH s H) as [t ->]. now exists t.
  - intros [t ->]. apply startswith_app.
Qed.

Lemma startswith_length (s p : str) :
  startswith s p = true -> (length p <= length s)%nat.
Proof.
  intros H. apply startswith_prefix in H as [t ->].
  rewrite length_app. lia.
Qed.

Lemma startswith_same_length (s p : str) :
  startswith s p = true -> length s = length p -> s = p.
Proof.
  intros H L. apply startswith_prefix in H as [t ->].
  rewrite length_app in L. destruct t; [now rewrite app_nil_r|simpl in L; lia].
Qed.

(** A text as long as the header and different from it does not start
    with the header once stripped. *)
Lemma strip_not_startswith (s h : str) :
  length s = length h -> s <> h -> startswith (strip s) h = false.
Proof.
  intros L Hne. destruct (startswith (strip s) h) eqn:E; [|reflexivity].
  exfalso. pose proof (startswith_length _ _ E) as L1.
  pose proof (strip_length s) as L2.
  assert (Es : strip s = s) by (apply strip_same_length; lia).
  rewrite Es in E. apply Hne. now apply startswith_same_length.
Qed.

End Text.

(** ** Paths *)

Section Paths.

Lemma path_eqb_eq (p q : PurePath) : path_eqb p q = true <-> p = q.
Proof.
  unfold path_eqb. destruct p as [r1 l1], q as [r2 l2]; simpl.
  destruct (list_eq_dec (list_eq_dec N.eq_dec) l1 l2) as [El|El].
  - rewrite andb_true_r, str_eqb_eq. split; congruence.
  - rewrite andb_false_r. split; [discriminate | congruence].
Qed.

Lemma path_in_In (p : PurePath) (l : list PurePath) :
  path_in p l = true <-> In p l.
Proof.
  unfold path_in. rewrite existsb_exists. split.
  - intros (q & Hq & E). apply path_eqb_eq in E. now subst.
  - intros H. exists p. split; [assumption | now apply path_eqb_eq].
Qed.

Lemma split_nonempty (c : char) (s : str) : split c s <> [].
Proof.
  destruct s as [|x s]; simpl; [discriminate|].
  destruct (x =? c); [discriminate|].
  destruct (split c s); discriminate.
Qed.

(** Splitting around one separator splits both sides. *)
Lemma split_app_sep (c : char) (a b : str) :
  split c (a ++ c :: b) = split c a ++ split c b.
Proof.
  induction a as [|x a IH]; simpl.
  - now rewrite N.eqb_refl.
  - destruct (x =? c); [now rewrite IH|].
    rewrite IH. pose proof (split_nonempty c a) as Hne.
    destruct (split c a); [congruence | reflexivity].
Qed.

(** The path of a spelling that does not start with a separator has no
    root, and its segments are those of the whole spelling. *)
Lemma Path_relative (c : char) (s : str) :
  (c =? SEP) = false ->
  Path (c :: s) = mkPath [] (filter kept_segment (split SEP (c :: s))).
Proof.
  intros H. unfold Path, splitroot. now rewrite H.
Qed.

(** A leading ["./"] does not change the path of a relative spelling. *)
Lemma Path_dot_slash (c : char) (s : str) :
  (c =? SEP) = false -> Path (lit "./" ++ c :: s) = Path (c :: s).
Proof.
  intros H. rewrite (Path_relative c s H).
  change (lit "./" ++ c :: s) with (DOT :: ([] ++ SEP :: c :: s)).
  rewrite Path_relative by reflexivity.
  change (DOT :: [] ++ SEP :: c :: s) with ([DOT] ++ SEP :: c :: s).
  now rewrite split_app_sep.
Qed.

(** A doubled separator inside a relative spelling does not change its
    path. *)
Lemma Path_double_sep (c : char) (a b : str) :
  (c =? SEP) = false ->
  Path ((c :: a) ++ SEP :: SEP :: b) = Path ((c :: a) ++ SEP :: b).
Proof.
  intros H. simpl app. rewrite !Path_relative by assumption.
  f_equal.
  change (c :: a ++ SEP :: SEP :: b) with ((c :: a) ++ SEP :: SEP :: b).
  change (c :: a ++ SEP :: b) with ((c :: a) ++ SEP :: b).
  rewrite !split_app_sep, !filter_app.
  reflexivity.
Qed.

(** Every spelling of the exclusion list is relative and not empty. *)
Lemma exclude_names_relative (e : str) :
  In e EXCLUDE_NAMES -> exists c t, e = c :: t /\ (c =? SEP) = false.
Proof.
  unfold EXCLUDE_NAMES. simpl In.
  intros H. repeat (destruct H as [<- | H]; [eexists _, _; split; reflexivity|]).
  contradiction.
Qed.

End Paths.

(** ** [check_file], case by case *)

Section CheckFile.

Variable fs : filesystem.

Lemma check_file_readable (p : PurePath) (data : str) :
  fs (fspath p) = Ok data ->
  check_file fs p =
    if path_in p EXCLUDES then Ok true
    else if str_in (suffix p) JS_SUFFIXES
            && negb (startswith (strip data) JS_LICENSE_TEXT) then Ok false
    else if str_in (suffix p) PY_YAML_SUFFIXES
            && negb (startswith (strip data) PY_YAML_LICENSE_TEXT) then Ok false
    else Ok true.
Proof. intros H. unfold check_file. now rewrite H. Qed.

Lemma check_file_unreadable (p : PurePath) (e : exn) :
  fs (fspath p) = Raise e -> check_file fs p = Raise e.
Proof. intros H. unfold check_file. now rewrite H. Qed.

Lemma check_file_excluded (p : PurePath) (data : str) :
  path_in p EXCLUDES = true -> fs (fspath p) = Ok data ->
  check_file fs p = Ok true.
Proof.
  intros Hin H. rewrite (check_file_readable p data H). now rewrite Hin.
Qed.

Lemma check_file_no_family (p : PurePath) (data : str) :
  str_in (suffix p) JS_SUFFIXES = false ->
  str_in (suffix p) PY_YAML_SUFFIXES = false ->
  fs (fspath p) = Ok data ->
  check_file fs p = Ok true.
Proof.
  intros Hjs Hpy H. rewrite (check_file_readable p data H), Hjs, Hpy.
  now destruct (path_in p EXCLUDES).
Qed.

(** The two families have no suffix in common. *)
Lemma families_disjoint (s : str) :
  str_in s JS_SUFFIXES = true -> str_in s PY_YAML_SUFFIXES = false.
Proof.
  intros H. apply str_in_In in H. unfold JS_SUFFIXES in H. simpl In in H.
  repeat (destruct H as [<- | H]; [reflexivity|]). contradiction.
Qed.

Lemma check_file_js (p : PurePath) (data : str) :
  str_in (suffix p) JS_SUFFIXES = true ->
  fs (fspath p) = Ok data ->
  check_file fs p =
    Ok (path_in p EXCLUDES || startswith (strip data) JS_LICENSE_TEXT).
Proof.
  intros Hjs H. rewrite (check_file_readable p data H), Hjs.
  rewrite (families_disjoint _ Hjs).
  destruct (path_in p EXCLUDES); [reflexivity|].
  now destruct (startswith (strip data) JS_LICENSE_TEXT).
Qed.

Lemma check_file_py_yaml (p : PurePath) (data : str) :
  str_in (suffix p) PY_YAML_SUFFIXES = true ->
  fs (fspath p) = Ok data ->
  check_file fs p =
    Ok (path_in p EXCLUDES || startswith (strip data) PY_YAML_LICENSE_TEXT).
Proof.
  intros Hpy H. rewrite (check_file_readable p data H), Hpy.
  assert (Hjs : str_in (suffix p) JS_SUFFIXES = false).
  { destruct (str_in (suffix p) JS_SUFFIXES) eqn:E; [|reflexivity].
    apply families_disjoint in E. congruence. }
  rewrite Hjs. destruct (path_in p EXCLUDES); [reflexivity|].
  now destruct (startswith (strip data) PY_YAML_LICENSE_TEXT).
Qed.

End CheckFile.

(** ** The loop of [main] *)

Section MainLoop.

Variable fs : filesystem.

Lemma readable_returns (a : str) (data : str) :
  fs (fspath (Path a)) = Ok data -> exists b, check_file fs (Path a) = Ok b.
Proof.
  intros H. rewrite (check_file_readable fs _ data H).
  repeat match goal with |- context [if ?c then _ else _] => destruct c end;
    eexists; reflexivity.
Qed.

Lemma all_readable_cons (a : str) (args : list str) :
  all_readable fs (a :: args) -> all_readable fs args.
Proof. intros H x Hx. apply H. now right. Qed.

Lemma print_all (l acc : list str) :
  fold_left (fun out f => print f out) l acc = acc ++ l.
Proof.
  revert acc. induction l as [|x l IH]; intros acc; simpl.
  - now rewrite app_nil_r.
  - rewrite IH. unfold print. now rewrite <- app_assoc.
Qed.

(** With every selected file readable, the loop ends with the failing
    arguments appended in order, having called [check_file] on the
    selected ones. *)
Lemma main_loop_readable (args : list str) :
  all_readable fs args ->
  forall failing log,
    main_loop fs args failing log =
    (Ok (failing ++ filter (fails fs) args),
     log ++ map Path (filter selected args)).
Proof.
  induction args as [|a args IH]; intros Hr failing log; simpl.
  - now rewrite !app_nil_r.
  - specialize (IH (all_readable_cons _ _ Hr)).
    unfold fails at 1. destruct (selected a) eqn:Es; simpl.
    + destruct (Hr a (or_introl eq_refl) Es) as [data Hd].
      destruct (readable_returns a data Hd) as [b Hb]. rewrite Hb.
      destruct b; simpl; rewrite IH, <- !app_assoc; reflexivity.
    + apply IH.
Qed.

(** The loop stops at the first selected file that cannot be read. *)
Lemma main_loop_abort (pre : list str) (a : str) (post : list str) (e : exn) :
  all_readable fs pre -> selected a = true ->
  check_file fs (Path a) = Raise e ->
  forall failing log,
    main_loop fs (pre ++ a :: post) failing log =
    (Raise e, log ++ map Path (filter selected pre) ++ [Path a]).
Proof.
  intros Hr Hs Ha. induction pre as [|x pre IH]; intros failing log; simpl.
  - now rewrite Hs, Ha.
  - specialize (IH (all_readable_cons _ _ Hr)).
    destruct (selected x) eqn:Es; simpl.
    + destruct (Hr x (or_introl eq_refl) Es) as [data Hd].
      destruct (readable_returns x data Hd) as [b Hb]. rewrite Hb.
      destruct b; simpl; rewrite IH, <- !app_assoc; reflexivity.
    + apply IH.
Qed.

(** No argument selected: no call, nothing appended. *)
Lemma main_loop_unselected (args : list str) :
  (forall a, In a args -> selected a = false) ->
  forall failing log, main_loop fs args failing log = (Ok failing, log).
Proof.
  induction args as [|a args IH]; intros H failing log; simpl.
  - reflexivity.
  - rewrite (H a (or_introl eq_refl)). simpl.
    apply IH. intros x Hx. apply H. now right.
Qed.

(** Whatever the files are, an argument the loop appended is one for
    which [check_file] returned [False]. *)
Lemma main_loop_sound (args : list str) :
  forall failing log failing' log',
    main_loop fs args failing log = (Ok failing', log') ->
    forall x, In x failing' ->
      In x failing \/ (In x args /\ check_file fs (Path x) = Ok false).
Proof.
  induction args as [|a args IH]; intros failing log failing' log' H x Hx;
    simpl in H.
  - injection H as <- _. now left.
  - destruct (negb (selected a)).
    + destruct (IH _ _ _ _ H x Hx) as [?|[? ?]]; [now left|right; split; [now right|assumption]].
    + destruct (check_file fs (Path a)) as [b|e] eqn:Hb; [|discriminate].
      destruct b; simpl in H.
      * destruct (IH _ _ _ _ H x Hx) as [?|[? ?]]; [now left|right; split; [now right|assumption]].
      * destruct (IH _ _ _ _ H x Hx) as [Hin|[? ?]].
        -- apply in_app_or in Hin as [?|[<-|[]]]; [now left|].
           right. split; [now left|assumption].
        -- right; split; [now right|assumption].
Qed.

Lemma filter_fails_nonempty (args : list str) :
  some_fails fs args <-> filter (fails fs) args <> [].
Proof.
  split.
  - intros (a & Hin & Hs & Hc) E.
    assert (Hf : In a (filter (fails fs) args)).
    { apply filter_In. split; [assumption|]. unfold fails. now rewrite Hs, Hc. }
    rewrite E in Hf. contradiction.
  - intros Hne. destruct (filter (fails fs) args) as [|a l] eqn:E; [congruence|].
    assert (Hf : In a (filter (fails fs) args)) by (rewrite E; now left).
    apply filter_In in Hf as [Hin Hf]. unfold fails in Hf.
    apply andb_true_iff in Hf as [Hs Hc]. exists a. repeat split; try assumption.
    destruct (check_file fs (Path a)) as [[|]|]; congruence.
Qed.

(** The whole run when every selected file is readable. *)
Lemma main_readable (prog : str) (args : list str) :
  all_readable fs args ->
  main fs (prog :: args) =
    match filter (fails fs) args with
    | [] => mkRun [] Completed (map Path (filter selected args))
    | failing => mkRun (BANNER :: failing) (SystemExit 1)
                       (map Path (filter selected args))
    end.
Proof.
  intros Hr. unfold main. simpl skipn.
  rewrite (main_loop_readable args Hr). simpl app.
  destruct (filter (fails fs) args) as [|a l]; [reflexivity|].
  simpl length. simpl Nat.ltb. cbv iota. now rewrite print_all.
Qed.

End MainLoop.

(** ** What [check_file] returns *)

Lemma startswith_refl (s : str) : startswith s s = true.
Proof. rewrite <- (app_nil_r s) at 1. apply startswith_app. Qed.

(** Neither header starts or ends with whitespace, and neither is empty. *)
Lemma JS_LICENSE_TEXT_stripped :
  JS_LICENSE_TEXT <> [] /\ lstrip JS_LICENSE_TEXT = JS_LICENSE_TEXT
  /\ rstrip JS_LICENSE_TEXT = JS_LICENSE_TEXT.
Proof. repeat split; [discriminate | vm_compute; reflexivity ..]. Qed.

Lemma PY_YAML_LICENSE_TEXT_stripped :
  PY_YAML_LICENSE_TEXT <> [] /\ lstrip PY_YAML_LICENSE_TEXT = PY_YAML_LICENSE_TEXT
  /\ rstrip PY_YAML_LICENSE_TEXT = PY_YAML_LICENSE_TEXT.
Proof. repeat split; [discriminate | vm_compute; reflexivity ..]. Qed.

(** Replacing the character at index [i] keeps the length and changes the
    text. *)
Lemma altered_length (h : str) (i : nat) (c : char) :
  (i < length h)%nat -> length (firstn i h ++ c :: skipn (S i) h) = length h.
Proof.
  intros H. rewrite length_app, length_firstn.
  change (length (c :: skipn (S i) h)) with (S (length (skipn (S i) h))).
  rewrite length_skipn. lia.
Qed.

Lemma altered_differs (h : str) (i : nat) (c : char) :
  (i < length h)%nat -> c <> nth i h 0 -> firstn i h ++ c :: skipn (S i) h <> h.
Proof.
  intros H Hc E. apply Hc.
  assert (Hn : nth i (firstn i h ++ c :: skipn (S i) h) 0 = c).
  { rewrite app_nth2; rewrite length_firstn, Nat.min_l by lia; [|lia].
    now rewrite Nat.sub_diag. }
  rewrite E in Hn. now symmetry.
Qed.

(** C1: a file of the hash-comment family (suffix [.py], [.mojo] or
    [.yaml]) whose content is one blank line followed by the exact
    hash-style header passes: stripping the whole content removes the blank
    line before the prefix comparison. *)
Theorem leading_blank_line_passes (fs : filesystem) (p : PurePath) :
  In (suffix p) PY_YAML_SUFFIXES ->
  fs (fspath p) = Ok (NL :: PY_YAML_LICENSE_TEXT) ->
  strip (NL :: PY_YAML_LICENSE_TEXT) = PY_YAML_LICENSE_TEXT
  /\ check_file fs p = Ok true.
Proof.
  intros Hs Hfs.
  assert (E : strip (NL :: PY_YAML_LICENSE_TEXT) = PY_YAML_LICENSE_TEXT)
    by (vm_compute; reflexivity).
  split; [exact E|].
  apply str_in_In in Hs.
  rewrite (check_file_py_yaml fs p _ Hs Hfs), E, startswith_refl.
  now rewrite orb_true_r.
Qed.

Lemma leading_blank_line_passes_witness :
  let p := Path (lit "tools/build.py") in
  let fs := fs_of [(lit "tools/build.py", NL :: PY_YAML_LICENSE_TEXT)] in
  In (suffix p) PY_YAML_SUFFIXES
  /\ fs (fspath p) = Ok (NL :: PY_YAML_LICENSE_TEXT)
  /\ strip (NL :: PY_YAML_LICENSE_TEXT) = PY_YAML_LICENSE_TEXT
  /\ check_file fs p = Ok true.
Proof.
  intros p fs.
  assert (Hs : In (suffix p) PY_YAML_SUFFIXES) by (vm_compute; auto).
  assert (Hfs : fs (fspath p) = Ok (NL :: PY_YAML_LICENSE_TEXT))
    by (vm_compute; reflexivity).
  split; [exact Hs|]. split; [exact Hfs|].
  exact (leading_blank_line_passes fs p Hs Hfs).
Defined.

(** C3: a readable file whose path is in the exclusion list passes, whatever
    its content and whatever its suffix. *)
Theorem excluded_file_passes (fs : filesystem) (p : PurePath) (data : str) :
  In p EXCLUDES ->
  fs (fspath p) = Ok data ->
  check_file fs p = Ok true.
Proof.
  intros Hin Hfs. apply (check_file_excluded fs p data); [|assumption].
  now apply path_in_In.
Qed.

Lemma excluded_file_passes_witness :
  let p := Path (lit "extension/logging.ts") in
  let data := lit "export const x = 1;" in
  let fs := fs_of [(lit "extension/logging.ts", data)] in
  In p EXCLUDES /\ fs (fspath p) = Ok data /\ check_file fs p = Ok true.
Proof.
  intros p data fs.
  assert (Hin : In p EXCLUDES) by (vm_compute; auto 12).
  assert (Hfs : fs (fspath p) = Ok data) by (vm_compute; reflexivity).
  split; [exact Hin|]. split; [exact Hfs|].
  exact (excluded_file_passes fs p data Hin Hfs).
Defined.

(** C6: a readable file whose suffix is in neither family passes, whatever
    its content. *)
Theorem unrecognised_suffix_passes (fs : filesystem) (p : PurePath) (data : str) :
  ~ In (suffix p) JS_SUFFIXES ->
  ~ In (suffix p) PY_YAML_SUFFIXES ->
  fs (fspath p) = Ok data ->
  check_file fs p = Ok true.
Proof.
  intros Hjs Hpy Hfs.
  apply (check_file_no_family fs p data); auto using str_in_not_In.
Qed.

Lemma unrecognised_suffix_passes_witness :
  let p := Path (lit "docs/README.md") in
  let data := lit "# Title" in
  let fs := fs_of [(lit "docs/README.md", data)] in
  ~ In (suffix p) JS_SUFFIXES /\ ~ In (suffix p) PY_YAML_SUFFIXES
  /\ fs (fspath p) = Ok data /\ check_file fs p = Ok true.
Proof.
  intros p data fs.
  assert (Hjs : ~ In (suffix p) JS_SUFFIXES).
  { vm_compute. intros [H|[H|[H|[]]]]; discriminate H. }
  assert (Hpy : ~ In (suffix p) PY_YAML_SUFFIXES).
  { vm_compute. intros [H|[H|[H|[]]]]; discriminate H. }
  assert (Hfs : fs (fspath p) = Ok data) by (vm_compute; reflexivity).
  repeat (split; [assumption|]).
  exact (unrecognised_suffix_passes fs p data Hjs Hpy Hfs).
Defined.

(** C7: a file of the C-style family (suffix [.js], [.ts] or [.mjs]) whose
    stripped content starts with the C-style header passes; in particular the
    header followed by any text [t] passes. *)
Theorem c_style_header_passes (fs : filesystem) (p : PurePath) (data t : str) :
  In (suffix p) JS_SUFFIXES ->
  (fs (fspath p) = Ok data ->
   startswith (strip data) JS_LICENSE_TEXT = true ->
   check_file fs p = Ok true)
  /\ (fs (fspath p) = Ok (JS_LICENSE_TEXT ++ t) -> check_file fs p = Ok true).
Proof.
  intros Hs. apply str_in_In in Hs. split.
  - intros Hfs Hpre. rewrite (check_file_js fs p data Hs Hfs), Hpre.
    now rewrite orb_true_r.
  - intros Hfs. rewrite (check_file_js fs p _ Hs Hfs).
    destruct JS_LICENSE_TEXT_stripped as (Hne & Hl & Hr).
    rewrite (strip_app_fixed _ t Hne Hl Hr), startswith_app.
    now rewrite orb_true_r.
Qed.

Lemma c_style_header_passes_witness :
  let p := Path (lit "src/main.ts") in
  let t := NL :: NL :: lit "export function main() {}" ++ [NL] in
  let fs := fs_of [(lit "src/main.ts", JS_LICENSE_TEXT ++ t)] in
  In (suffix p) JS_SUFFIXES /\ check_file fs p = Ok true.
Proof.
  intros p t fs.
  assert (Hs : In (suffix p) JS_SUFFIXES) by (vm_compute; auto).
  split; [exact Hs|].
  apply (proj2 (c_style_header_passes fs p (JS_LICENSE_TEXT ++ t) t Hs)).
  vm_compute; reflexivity.
Defined.

(** C8: a file of the C-style family, not in the exclusion list, whose
    content is the C-style header with the character at one index replaced
    by a different one, fails. *)
Theorem altered_header_fails (fs : filesystem) (p : PurePath) (i : nat) (c : char) :
  In (suffix p) JS_SUFFIXES ->
  ~ In p EXCLUDES ->
  (i < length JS_LICENSE_TEXT)%nat ->
  c <> nth i JS_LICENSE_TEXT 0 ->
  fs (fspath p) =
    Ok (firstn i JS_LICENSE_TEXT ++ c :: skipn (S i) JS_LICENSE_TEXT) ->
  check_file fs p = Ok false.
Proof.
  intros Hs Hex Hi Hc Hfs. apply str_in_In in Hs.
  rewrite (check_file_js fs p _ Hs Hfs).
  assert (Hin : path_in p EXCLUDES = false).
  { destruct (path_in p EXCLUDES) eqn:E; [|reflexivity].
    apply path_in_In in E. contradiction. }
  rewrite Hin, strip_not_startswith; [reflexivity | |].
  - now apply altered_length.
  - now apply altered_differs.
Qed.

Lemma altered_header_fails_witness :
  let p := Path (lit "src/main.js") in
  let i := 640%nat in
  let c : char := 32 in
  let fs := fs_of [(lit "src/main.js",
                    firstn i JS_LICENSE_TEXT ++ c :: skipn (S i) JS_LICENSE_TEXT)] in
  In (suffix p) JS_SUFFIXES /\ ~ In p EXCLUDES
  /\ (i < length JS_LICENSE_TEXT)%nat /\ c <> nth i JS_LICENSE_TEXT 0
  /\ check_file fs p = Ok false.
Proof.
  intros p i c fs.
  assert (Hs : In (suffix p) JS_SUFFIXES) by (vm_compute; auto).
  assert (Hex : ~ In p EXCLUDES).
  { intros H. apply path_in_In in H. vm_compute in H. discriminate H. }
  assert (Hi : (i < length JS_LICENSE_TEXT)%nat) by (vm_compute; lia).
  assert (Hc : c <> nth i JS_LICENSE_TEXT 0) by (vm_compute; discriminate).
  repeat (split; [assumption|]).
  apply (altered_header_fails fs p i c Hs Hex Hi Hc).
  vm_compute; reflexivity.
Defined.

(** The two respellings the exclusion list is insensitive to: a leading
    ["./"], and a doubled separator. *)
Lemma exclude_name_dot_slash (e : str) :
  In e EXCLUDE_NAMES -> Path (lit "./" ++ e) = Path e.
Proof.
  intros H. destruct (exclude_names_relative e H) as (c & t & -> & Hc).
  now apply Path_dot_slash.
Qed.

Lemma exclude_name_double_sep (a b : str) :
  In (a ++ SEP :: b) EXCLUDE_NAMES ->
  Path (a ++ SEP :: SEP :: b) = Path (a ++ SEP :: b).
Proof.
  intros H. destruct (exclude_names_relative _ H) as (c & t & E & Hc).
  destruct a as [|x a]; simpl in E.
  - injection E as <- _. discriminate Hc.
  - injection E as -> _. now apply Path_double_sep.
Qed.

(** C9: the exclusion test compares path values, not spellings.  For an
    entry [e] of the exclusion list, [e] with a leading ["./"] and [e] with
    one of its separators doubled have the path of [e]; and every argument
    whose path is the path of [e] passes, whatever the content of the
    file. *)
Theorem excluded_by_path_value (e : str) :
  In e EXCLUDE_NAMES ->
  Path (lit "./" ++ e) = Path e
  /\ (forall a b, e = a ++ SEP :: b -> Path (a ++ SEP :: SEP :: b) = Path e)
  /\ (forall fs arg data,
        Path arg = Path e ->
        fs (fspath (Path arg)) = Ok data ->
        check_file fs (Path arg) = Ok true).
Proof.
  intros Hin. split; [now apply exclude_name_dot_slash|]. split.
  - intros a b ->. now apply exclude_name_double_sep.
  - intros fs arg data Heq Hfs.
    apply (check_file_excluded fs _ data); [|assumption].
    apply path_in_In. rewrite Heq. unfold EXCLUDES. now apply in_map.
Qed.

Lemma excluded_by_path_value_witness :
  let e := lit "extension/logging.ts" in
  let dotted := lit "./extension/logging.ts" in
  let doubled := lit "extension//logging.ts" in
  let data := lit "no header here" in
  let fs := fs_of [(e, data)] in
  In e EXCLUDE_NAMES
  /\ dotted <> e /\ check_file fs (Path dotted) = Ok true
  /\ doubled <> e /\ check_file fs (Path doubled) = Ok true.
Proof.
  intros e dotted doubled data fs.
  assert (Hin : In e EXCLUDE_NAMES) by (vm_compute; auto 12).
  destruct (excluded_by_path_value e Hin) as (Hdot & Hdbl & Hpass).
  split; [exact Hin|]. split; [vm_compute; discriminate|]. split.
  - apply (Hpass fs dotted data); [exact Hdot | vm_compute; reflexivity].
  - split; [vm_compute; discriminate|].
    apply (Hpass fs doubled data);
      [exact (Hdbl (lit "extension") (lit "logging.ts") eq_refl)
      | vm_compute; reflexivity].
Defined.

(** ** What [main] does *)

(** C2: with every selected file readable, [main] ends with exit status 1
    and prints the banner followed by the failing arguments, each once and in
    the order of the arguments, exactly when some selected file fails;
    otherwise, also without arguments, it ends with exit status 0 and prints
    nothing. *)
Theorem main_reports_failures (fs : filesystem) (prog : str) (args : list str) :
  all_readable fs args ->
  let r := main fs (prog :: args) in
  ((exit_status (status r) = 1%Z
    /\ stdout r = BANNER :: filter (fails fs) args)
   <-> some_fails fs args)
  /\ (~ some_fails fs args ->
      exit_status (status r) = 0%Z /\ stdout r = []).
Proof.
  intros Hr r. subst r. rewrite (main_readable fs prog args Hr).
  rewrite (filter_fails_nonempty fs args).
  destruct (filter (fails fs) args) as [|a l]; simpl; split.
  - split; [intros [H _]; discriminate H | congruence].
  - auto.
  - split; [discriminate | auto].
  - intros H. exfalso. apply H. discriminate.
Qed.

Lemma main_reports_failures_witness :
  let bad := lit "src/a.js" in
  let good := lit "src/b.ts" in
  let fs := fs_of [(bad, lit "let a;"); (good, JS_LICENSE_TEXT ++ lit " let b;")] in
  let args := [bad; good; bad] in
  let r := main fs (lit "license.py" :: args) in
  all_readable fs args
  /\ some_fails fs args
  /\ exit_status (status r) = 1%Z
  /\ stdout r = [BANNER; bad; bad].
Proof.
  intros bad good fs args r.
  assert (Hr : all_readable fs args).
  { intros a [<-|[<-|[<-|[]]]] _; eexists; vm_compute; reflexivity. }
  assert (Hf : some_fails fs args).
  { exists bad. repeat split; [now left | vm_compute; reflexivity ..]. }
  split; [exact Hr|]. split; [exact Hf|].
  destruct (proj1 (main_reports_failures fs (lit "license.py") args Hr)) as [_ H].
  destruct (H Hf) as [H1 H2]. split; [exact H1|].
  etransitivity; [exact H2|]. vm_compute; reflexivity.
Defined.

(** C4: when the name of no argument ends with [.js], [.ts] or [.mjs],
    [main] calls [check_file] on none of them, prints nothing and ends with
    exit status 0, whatever the files contain. *)
Theorem unselected_arguments_pass (fs : filesystem) (prog : str) (args : list str) :
  (forall a s, In a args -> In s JS_SUFFIXES ->
     endswith (name (Path a)) s = false) ->
  let r := main fs (prog :: args) in
  checked r = [] /\ stdout r = [] /\ exit_status (status r) = 0%Z.
Proof.
  intros H r. subst r. unfold main. simpl skipn.
  rewrite main_loop_unselected; [now simpl|].
  intros a Ha. unfold selected, endswith_any.
  destruct (existsb (endswith (name (Path a))) JS_SUFFIXES) eqn:E; [|reflexivity].
  apply existsb_exists in E as (s & Hs & Es). rewrite (H a s Ha Hs) in Es.
  discriminate Es.
Qed.

Lemma unselected_arguments_pass_witness :
  let arg := lit "tools/gen.py" in
  let fs := fs_of [(arg, lit "print(1)")] in
  let r := main fs [lit "license.py"; arg] in
  (forall a s, In a [arg] -> In s JS_SUFFIXES ->
     endswith (name (Path a)) s = false)
  /\ check_file fs (Path arg) = Ok false
  /\ checked r = [] /\ stdout r = [] /\ exit_status (status r) = 0%Z.
Proof.
  intros arg fs r.
  assert (H : forall a s, In a [arg] -> In s JS_SUFFIXES ->
                endswith (name (Path a)) s = false).
  { intros a s [<-|[]] [<-|[<-|[<-|[]]]]; vm_compute; reflexivity. }
  split; [exact H|]. split; [vm_compute; reflexivity|].
  exact (unselected_arguments_pass fs (lit "license.py") [arg] H).
Defined.

(** C5, as the code has it: when a selected file cannot be opened or read,
    [check_file] raises, the exception leaves [main] uncaught and the run
    stops at that file: the arguments after it are not looked at, nothing is
    printed, and the run does not end through [sys.exit(1)].  The exit status
    of the interpreter is 1 all the same. *)
Theorem unreadable_file_aborts
    (fs : filesystem) (prog : str) (pre : list str) (a : str)
    (post : list str) (e : exn) :
  all_readable fs pre ->
  selected a = true ->
  fs (fspath (Path a)) = Raise e ->
  let r := main fs (prog :: pre ++ a :: post) in
  check_file fs (Path a) = Raise e
  /\ status r = Uncaught e
  /\ stdout r = []
  /\ checked r = map Path (filter selected pre) ++ [Path a]
  /\ status r <> SystemExit 1
  /\ exit_status (status r) = 1%Z.
Proof.
  intros Hr Hs Hfs r. subst r.
  pose proof (check_file_unreadable fs _ e Hfs) as Hc.
  unfold main. simpl skipn.
  rewrite (main_loop_abort fs pre a post e Hr Hs Hc). simpl.
  repeat split; try assumption. discriminate.
Qed.

Lemma unreadable_file_aborts_witness :
  let bad := lit "src/a.js" in
  let missing := lit "src/gone.ts" in
  let other := lit "src/c.mjs" in
  let fs := fs_of [(bad, lit "let a;"); (other, lit "let c;")] in
  let r := main fs [lit "license.py"; bad; missing; other] in
  all_readable fs [bad] /\ selected missing = true
  /\ fs (fspath (Path missing)) = Raise OSError
  /\ check_file fs (Path bad) = Ok false
  /\ check_file fs (Path missing) = Raise OSError
  /\ status r = Uncaught OSError
  /\ stdout r = []
  /\ checked r = [Path bad; Path missing]
  /\ status r <> SystemExit 1
  /\ exit_status (status r) = 1%Z.
Proof.
  intros bad missing other fs r.
  assert (Hr : all_readable fs [bad]).
  { intros x [<-|[]] _; eexists; vm_compute; reflexivity. }
  assert (Hs : selected missing = true) by (vm_compute; reflexivity).
  assert (Hfs : fs (fspath (Path missing)) = Raise OSError)
    by (vm_compute; reflexivity).
  repeat (split; [assumption|]). split; [vm_compute; reflexivity|].
  exact (unreadable_file_aborts fs (lit "license.py") [bad] missing [other]
           OSError Hr Hs Hfs).
Defined.

(** C5, as stated, fails: the run that stops on a missing file ends with the
    same exit status as the run that reports a file without header. *)
Lemma unreadable_exit_status_not_distinct :
  let missing := lit "src/gone.ts" in
  let bad := lit "src/a.js" in
  let fs := fs_of [(bad, lit "let a;")] in
  check_file fs (Path missing) = Raise OSError
  /\ status (main fs [lit "license.py"; bad]) = SystemExit 1
  /\ ~ exit_status (status (main fs [lit "license.py"; missing]))
       <> exit_status (status (main fs [lit "license.py"; bad])).
Proof.
  intros missing bad fs. repeat split; try (vm_compute; reflexivity).
  intros H. apply H. vm_compute; reflexivity.
Qed.

(** A path without suffix is never failed. *)
Lemma check_file_no_suffix (fs : filesystem) (p : PurePath) :
  suffix p = [] -> check_file fs p <> Ok false.
Proof.
  intros Hs. destruct (fs (fspath p)) as [data|e] eqn:Hfs.
  - rewrite (check_file_no_family fs p data); [discriminate | | | assumption];
      now rewrite Hs.
  - rewrite (check_file_unreadable fs p e Hfs). discriminate.
Qed.

(** What [main] prints is nothing, or the banner followed by arguments for
    which [check_file] returned [False]. *)
Lemma main_stdout_sound (fs : filesystem) (argv : list str) (x : str) :
  In x (stdout (main fs argv)) ->
  x = BANNER \/ check_file fs (Path x) = Ok false.
Proof.
  unfold main.
  destruct (main_loop fs (skipn 1 argv) [] []) as [[failing|e] log] eqn:E;
    [|intros []].
  destruct (Nat.ltb 0 (length failing)); [|intros []].
  simpl stdout. rewrite print_all. unfold print. simpl app.
  intros [<-|Hin]; [now left|]. right.
  destruct (main_loop_sound fs _ _ _ _ _ E x Hin) as [[]|[_ H]]. exact H.
Qed.

(** C10: a file whose whole name is [.js], [.ts] or [.mjs] is selected by
    the loop of [main], but its suffix is empty, so [check_file] passes it
    whatever it contains, and [main] never prints it. *)
Theorem dotfile_never_reported (arg : str) :
  In (name (Path arg)) JS_SUFFIXES ->
  selected arg = true
  /\ suffix (Path arg) = []
  /\ (forall fs data, fs (fspath (Path arg)) = Ok data ->
        check_file fs (Path arg) = Ok true)
  /\ (forall fs argv, ~ In arg (stdout (main fs argv))).
Proof.
  intros Hn.
  assert (Hsel : selected arg = true).
  { unfold selected. simpl in Hn.
    destruct Hn as [<-|[<-|[<-|[]]]]; reflexivity. }
  assert (Hsuf : suffix (Path arg) = []).
  { unfold suffix. simpl in Hn.
    destruct Hn as [<-|[<-|[<-|[]]]]; reflexivity. }
  repeat split; try assumption.
  - intros fs data Hfs.
    apply (check_file_no_family fs _ data); [| |assumption]; now rewrite Hsuf.
  - intros fs argv Hin.
    destruct (main_stdout_sound fs argv arg Hin) as [->|Hc].
    + vm_compute in Hn. destruct Hn as [H|[H|[H|[]]]]; discriminate H.
    + now apply (check_file_no_suffix fs (Path arg) Hsuf).
Qed.

Lemma dotfile_never_reported_witness :
  let arg := lit "extension/.mjs" in
  let fs := fs_of [(arg, lit "no header")] in
  In (name (Path arg)) JS_SUFFIXES
  /\ selected arg = true
  /\ suffix (Path arg) = []
  /\ check_file fs (Path arg) = Ok true
  /\ stdout (main fs [lit "license.py"; arg]) = [].
Proof.
  intros arg fs.
  assert (Hn : In (name (Path arg)) JS_SUFFIXES) by (vm_compute; auto).
  destruct (dotfile_never_reported arg Hn) as (Hsel & Hsuf & Hc & _).
  repeat (split; [assumption|]). split.
  - apply (Hc fs (lit "no header")). vm_compute; reflexivity.
  - vm_compute; reflexivity.
Defined.

(** * Further properties of [check_file] *)

(** ** Whitespace around the content *)

Lemma lstrip_app (a b : str) :
  lstrip (a ++ b) = if forallb isspace a then lstrip b else lstrip a ++ b.
Proof.
  induction a as [|c a IH]; simpl; [reflexivity|].
  destruct (isspace c); [exact IH | reflexivity].
Qed.

Lemma lstrip_blank (w : str) : forallb isspace w = true -> lstrip w = [].
Proof.
  induction w as [|c w IH]; simpl; [reflexivity|].
  destruct (isspace c); [exact IH | discriminate].
Qed.

Lemma lstrip_head (s : str) (c : char) (t : str) :
  lstrip s = c :: t -> isspace c = false.
Proof.
  induction s as [|x s IH]; simpl; [discriminate|].
  destruct (isspace x) eqn:E; [exact IH|]. intros H. injection H as <- _.
  exact E.
Qed.

Lemma lstrip_idempotent (s : str) : lstrip (lstrip s) = lstrip s.
Proof.
  destruct (lstrip s) as [|c t] eqn:E; [reflexivity|].
  simpl. now rewrite (lstrip_head s c t E).
Qed.

Lemma forallb_rev (f : char -> bool) (w : str) :
  forallb f (rev w) = forallb f w.
Proof.
  induction w as [|c w IH]; simpl; [reflexivity|].
  rewrite forallb_app, IH. simpl. rewrite andb_true_r. apply andb_comm.
Qed.

Lemma rstrip_app_blank (s w : str) :
  forallb isspace w = true -> rstrip (s ++ w) = rstrip s.
Proof.
  intros H. unfold rstrip. rewrite rev_app_distr, lstrip_app.
  now rewrite forallb_rev, H.
Qed.

Lemma rstrip_cons (c : char) (t : str) :
  isspace c = false -> rstrip (c :: t) = c :: rstrip t.
Proof.
  intros H. apply (rstrip_app_fixed [c] t).
  unfold rstrip. simpl. now rewrite H.
Qed.

(** Whitespace before and after a text does not change what it strips
    to. *)
Lemma strip_padded (w1 s w2 : str) :
  forallb isspace w1 = true -> forallb isspace w2 = true ->
  strip (w1 ++ s ++ w2) = strip s.
Proof.
  intros H1 H2. unfold strip. rewrite lstrip_app, H1, lstrip_app.
  destruct (forallb isspace s) eqn:Es.
  - now rewrite (lstrip_blank w2 H2), (lstrip_blank s Es).
  - now apply rstrip_app_blank.
Qed.

Lemma strip_blank (s : str) : forallb isspace s = true -> strip s = [].
Proof. intros H. unfold strip. now rewrite (lstrip_blank s H). Qed.

(** The stripped text starts where the left-stripped text starts. *)
Lemma strip_hd (s : str) : hd_error (strip s) = hd_error (lstrip s).
Proof.
  unfold strip. destruct (lstrip s) as [|c t] eqn:E; [reflexivity|].
  now rewrite (rstrip_cons c t (lstrip_head s c t E)).
Qed.

Lemma startswith_hd (s h : str) (c : char) :
  hd_error h = Some c -> startswith s h = true -> hd_error s = Some c.
Proof.
  destruct h as [|x h]; simpl; [discriminate|]. intros [= ->].
  destruct s as [|y s]; [discriminate|]. intros H.
  apply andb_true_iff in H as [E _]. apply N.eqb_eq in E. now subst.
Qed.

Lemma path_in_not_In (p : PurePath) (l : list PurePath) :
  ~ In p l -> path_in p l = false.
Proof.
  intros H. destruct (path_in p l) eqn:E; [|reflexivity].
  apply path_in_In in E. contradiction.
Qed.

(** X1: whitespace added before and after the content of a file does not
    change what [check_file] returns for it. *)
Theorem padding_is_ignored
    (fs fs' : filesystem) (p : PurePath) (data w1 w2 : str) :
  forallb isspace w1 = true ->
  forallb isspace w2 = true ->
  fs (fspath p) = Ok data ->
  fs' (fspath p) = Ok (w1 ++ data ++ w2) ->
  check_file fs' p = check_file fs p.
Proof.
  intros H1 H2 Hfs Hfs'.
  rewrite (check_file_readable fs' p _ Hfs'), (check_file_readable fs p _ Hfs).
  now rewrite (strip_padded w1 data w2 H1 H2).
Qed.

Lemma padding_is_ignored_witness :
  let p := Path (lit "src/main.ts") in
  let data := JS_LICENSE_TEXT ++ NL :: lit "let x;" in
  let w1 := [NL; 0xA0; 9] in
  let w2 := [32; 13; NL; 0x3000] in
  let fs := fs_of [(lit "src/main.ts", data)] in
  let fs' := fs_of [(lit "src/main.ts", w1 ++ data ++ w2)] in
  forallb isspace w1 = true /\ forallb isspace w2 = true
  /\ check_file fs p = Ok true
  /\ check_file fs' p = check_file fs p.
Proof.
  intros p data w1 w2 fs fs'.
  assert (H1 : forallb isspace w1 = true) by reflexivity.
  assert (H2 : forallb isspace w2 = true) by reflexivity.
  repeat (split; [assumption|]). split; [vm_compute; reflexivity|].
  apply (padding_is_ignored fs fs' p data w1 w2 H1 H2);
    vm_compute; reflexivity.
Defined.

(** X2: an empty file, or one of whitespace only, fails in both families
    unless its path is excluded. *)
Theorem blank_file_fails (fs : filesystem) (p : PurePath) (data : str) :
  forallb isspace data = true ->
  ~ In p EXCLUDES ->
  In (suffix p) JS_SUFFIXES \/ In (suffix p) PY_YAML_SUFFIXES ->
  fs (fspath p) = Ok data ->
  check_file fs p = Ok false.
Proof.
  intros Hb Hex Hs Hfs. pose proof (path_in_not_In p _ Hex) as Hin.
  destruct Hs as [Hs|Hs]; apply str_in_In in Hs.
  - rewrite (check_file_js fs p data Hs Hfs), Hin, (strip_blank data Hb).
    destruct JS_LICENSE_TEXT_stripped as (Hne & _).
    destruct JS_LICENSE_TEXT; [congruence | reflexivity].
  - rewrite (check_file_py_yaml fs p data Hs Hfs), Hin, (strip_blank data Hb).
    destruct PY_YAML_LICENSE_TEXT_stripped as (Hne & _).
    destruct PY_YAML_LICENSE_TEXT; [congruence | reflexivity].
Qed.

Lemma blank_file_fails_witness :
  let p := Path (lit "conf/empty.yaml") in
  let fs := fs_of [(lit "conf/empty.yaml", [])] in
  forallb isspace [] = true /\ ~ In p EXCLUDES
  /\ (In (suffix p) JS_SUFFIXES \/ In (suffix p) PY_YAML_SUFFIXES)
  /\ fs (fspath p) = Ok []
  /\ check_file fs p = Ok false.
Proof.
  intros p fs.
  assert (Hb : forallb isspace [] = true) by reflexivity.
  assert (Hex : ~ In p EXCLUDES).
  { intros H. apply path_in_In in H. vm_compute in H. discriminate H. }
  assert (Hs : In (suffix p) JS_SUFFIXES \/ In (suffix p) PY_YAML_SUFFIXES)
    by (right; vm_compute; auto).
  assert (Hfs : fs (fspath p) = Ok []) by (vm_compute; reflexivity).
  repeat (split; [assumption|]).
  exact (blank_file_fails fs p [] Hb Hex Hs Hfs).
Defined.

(** ** The first character *)

Lemma JS_LICENSE_TEXT_hd : hd_error JS_LICENSE_TEXT = Some SEP.
Proof. vm_compute; reflexivity. Qed.

Lemma PY_YAML_LICENSE_TEXT_hd : hd_error PY_YAML_LICENSE_TEXT = Some 35.
Proof. vm_compute; reflexivity. Qed.

Lemma startswith_wrong_hd (data h : str) (c : char) :
  hd_error h = Some c -> hd_error (lstrip data) <> Some c ->
  startswith (strip data) h = false.
Proof.
  intros Hh Hd. destruct (startswith (strip data) h) eqn:E; [|reflexivity].
  exfalso. apply Hd. rewrite <- strip_hd. exact (startswith_hd _ h c Hh E).
Qed.

(** X3: unless the path is excluded, a file of the C-style family whose first
    character after leading whitespace is not a slash fails, and a file of
    the hash-comment family whose first such character is not a hash sign
    fails; a byte-order mark or any other text in front of the header is not
    skipped. *)
Theorem first_character_decides
    (fs : filesystem) (p : PurePath) (data : str) :
  ~ In p EXCLUDES ->
  fs (fspath p) = Ok data ->
  (In (suffix p) JS_SUFFIXES -> hd_error (lstrip data) <> Some SEP ->
   check_file fs p = Ok false)
  /\ (In (suffix p) PY_YAML_SUFFIXES -> hd_error (lstrip data) <> Some 35 ->
      check_file fs p = Ok false).
Proof.
  intros Hex Hfs. pose proof (path_in_not_In p _ Hex) as Hin. split.
  - intros Hs Hd. apply str_in_In in Hs.
    rewrite (check_file_js fs p data Hs Hfs), Hin.
    now rewrite (startswith_wrong_hd data _ SEP JS_LICENSE_TEXT_hd Hd).
  - intros Hs Hd. apply str_in_In in Hs.
    rewrite (check_file_py_yaml fs p data Hs Hfs), Hin.
    now rewrite (startswith_wrong_hd data _ 35 PY_YAML_LICENSE_TEXT_hd Hd).
Qed.

Lemma first_character_decides_witness :
  let p := Path (lit "src/bom.js") in
  let data := 0xFEFF :: JS_LICENSE_TEXT in
  let fs := fs_of [(lit "src/bom.js", data)] in
  ~ In p EXCLUDES /\ fs (fspath p) = Ok data
  /\ In (suffix p) JS_SUFFIXES /\ hd_error (lstrip data) <> Some SEP
  /\ check_file fs p = Ok false.
Proof.
  intros p data fs.
  assert (Hex : ~ In p EXCLUDES).
  { intros H. apply path_in_In in H. vm_compute in H. discriminate H. }
  assert (Hfs : fs (fspath p) = Ok data) by (vm_compute; reflexivity).
  assert (Hs : In (suffix p) JS_SUFFIXES) by (vm_compute; auto).
  assert (Hd : hd_error (lstrip data) <> Some SEP) by (vm_compute; discriminate).
  repeat (split; [assumption|]).
  exact (proj1 (first_character_decides fs p data Hex Hfs) Hs Hd).
Defined.

(** ** The exact condition of failure *)

Lemma not_startswith_iff (s h : str) :
  startswith s h = false <-> forall t, s <> h ++ t.
Proof.
  split.
  - intros H t ->. rewrite startswith_app in H. discriminate.
  - intros H. destruct (startswith s h) eqn:E; [|reflexivity].
    apply startswith_prefix in E as [t ->]. now elim (H t).
Qed.

(** X4: [check_file] returns [False] exactly for a readable file whose path
    is not excluded, whose suffix belongs to one of the two families, and
    whose stripped content is not the header of that family followed by
    something; it returns [False] in no other case. *)
Theorem check_file_false_iff (fs : filesystem) (p : PurePath) :
  check_file fs p = Ok false <->
  exists data,
    fs (fspath p) = Ok data
    /\ ~ In p EXCLUDES
    /\ ((In (suffix p) JS_SUFFIXES
         /\ forall t, strip data <> JS_LICENSE_TEXT ++ t)
        \/ (In (suffix p) PY_YAML_SUFFIXES
            /\ forall t, strip data <> PY_YAML_LICENSE_TEXT ++ t)).
Proof.
  split.
  - intros H. destruct (fs (fspath p)) as [data|e] eqn:Hfs.
    2:{ rewrite (check_file_unreadable fs p e Hfs) in H. discriminate. }
    exists data. split; [reflexivity|].
    rewrite (check_file_readable fs p data Hfs) in H.
    destruct (path_in p EXCLUDES) eqn:Hin; [discriminate|].
    split. { intros Hp. apply path_in_In in Hp. congruence. }
    destruct (str_in (suffix p) JS_SUFFIXES) eqn:Hjs; cbn [andb negb] in H.
    + destruct (startswith (strip data) JS_LICENSE_TEXT) eqn:Hst;
        cbn [andb negb] in H.
      * rewrite (families_disjoint _ Hjs) in H. discriminate.
      * left. split; [now apply str_in_In | now apply not_startswith_iff].
    + destruct (str_in (suffix p) PY_YAML_SUFFIXES) eqn:Hpy; [|discriminate].
      destruct (startswith (strip data) PY_YAML_LICENSE_TEXT) eqn:Hst;
        [discriminate|].
      right. split; [now apply str_in_In | now apply not_startswith_iff].
  - intros (data & Hfs & Hex & Hcase).
    pose proof (path_in_not_In p _ Hex) as Hin.
    destruct Hcase as [[Hs Hn]|[Hs Hn]];
      apply str_in_In in Hs; apply not_startswith_iff in Hn.
    + now rewrite (check_file_js fs p data Hs Hfs), Hin, Hn.
    + now rewrite (check_file_py_yaml fs p data Hs Hfs), Hin, Hn.
Qed.

(** ** Paths the exclusion list does not reach *)

Lemma excludes_relative_plain (q : PurePath) :
  In q EXCLUDES -> root q = [] /\ ~ In (lit "..") (parts q).
Proof.
  intros H.
  assert (Hall : forallb (fun q => str_eqb (root q) []
                            && negb (str_in (lit "..") (parts q)))
                   EXCLUDES = true) by (vm_compute; reflexivity).
  rewrite forallb_forall in Hall. specialize (Hall q H).
  apply andb_true_iff in Hall as [Hr Hd]. split.
  - now apply str_eqb_eq.
  - intros Hin. apply str_in_In in Hin. rewrite Hin in Hd. discriminate.
Qed.

(** X5: a path with a root (an absolute spelling) or with a [".."] segment
    is never excluded, also when it names a file of the exclusion list: for
    the C-style family [check_file] then returns whether the stripped
    content starts with the header. *)
Theorem rooted_or_dotdot_not_excluded
    (fs : filesystem) (p : PurePath) (data : str) :
  root p <> [] \/ In (lit "..") (parts p) ->
  In (suffix p) JS_SUFFIXES ->
  fs (fspath p) = Ok data ->
  ~ In p EXCLUDES
  /\ check_file fs p = Ok (startswith (strip data) JS_LICENSE_TEXT).
Proof.
  intros Hp Hs Hfs.
  assert (Hex : ~ In p EXCLUDES).
  { intros H. destruct (excludes_relative_plain p H) as [Hr Hd].
    destruct Hp; contradiction. }
  split; [exact Hex|]. apply str_in_In in Hs.
  now rewrite (check_file_js fs p data Hs Hfs), (path_in_not_In p _ Hex).
Qed.

Lemma rooted_or_dotdot_not_excluded_witness :
  let abs := Path (lit "/repo/esbuild.mjs") in
  let up := Path (lit "extension/../esbuild.mjs") in
  let data := lit "import esbuild;" in
  let fs := fs_of [(lit "/repo/esbuild.mjs", data);
                   (lit "extension/../esbuild.mjs", data)] in
  In (Path (lit "esbuild.mjs")) EXCLUDES
  /\ (root abs <> [] \/ In (lit "..") (parts abs))
  /\ check_file fs abs = Ok false
  /\ (root up <> [] \/ In (lit "..") (parts up))
  /\ check_file fs up = Ok false.
Proof.
  intros abs up data fs.
  assert (Ha : root abs <> [] \/ In (lit "..") (parts abs))
    by (left; vm_compute; discriminate).
  assert (Hu : root up <> [] \/ In (lit "..") (parts up))
    by (right; vm_compute; auto).
  assert (Hsa : In (suffix abs) JS_SUFFIXES) by (vm_compute; auto).
  assert (Hsu : In (suffix up) JS_SUFFIXES) by (vm_compute; auto).
  split; [vm_compute; auto 12|]. split; [exact Ha|]. split.
  - etransitivity.
    + apply (proj2 (rooted_or_dotdot_not_excluded fs abs data Ha Hsa
                      ltac:(vm_compute; reflexivity))).
    + vm_compute; reflexivity.
  - split; [exact Hu|]. etransitivity.
    + apply (proj2 (rooted_or_dotdot_not_excluded fs up data Hu Hsu
                      ltac:(vm_compute; reflexivity))).
    + vm_compute; reflexivity.
Defined.

(** * Further properties of [main] *)

Section MainOutcomes.

Variable fs : filesystem.

(** Either every selected argument is readable, or there is a first one
    that is not. *)
Lemma readable_or_first_unreadable (args : list str) :
  all_readable fs args
  \/ exists pre a post e,
       args = pre ++ a :: post /\ all_readable fs pre
       /\ selected a = true /\ fs (fspath (Path a)) = Raise e.
Proof.
  induction args as [|x args IH].
  - left. intros a [].
  - destruct (selected x) eqn:Es.
    + destruct (fs (fspath (Path x))) as [data|e] eqn:Hx.
      * destruct IH as [Hr|(pre & a & post & e & -> & Hr & Hs & Ha)].
        -- left. intros a [<-|Ha] Hsel; [now exists data | now apply Hr].
        -- right. exists (x :: pre), a, post, e. repeat split; try assumption.
           intros y [<-|Hy] Hsel; [now exists data | now apply Hr].
      * right. exists [], x, args, e. repeat split; try assumption.
        intros a [].
    + destruct IH as [Hr|(pre & a & post & e & -> & Hr & Hs & Ha)].
      * left. intros a [<-|Ha] Hsel; [congruence | now apply Hr].
      * right. exists (x :: pre), a, post, e. repeat split; try assumption.
        intros y [<-|Hy] Hsel; [congruence | now apply Hr].
Qed.

(** The whole run when a selected file cannot be read. *)
Lemma main_unreadable
    (prog : str) (pre : list str) (a : str) (post : list str) (e : exn) :
  all_readable fs pre -> selected a = true ->
  fs (fspath (Path a)) = Raise e ->
  main fs (prog :: pre ++ a :: post) =
    mkRun [] (Uncaught e) (map Path (filter selected pre) ++ [Path a]).
Proof.
  intros Hr Hs Ha. unfold main. simpl skipn.
  now rewrite (main_loop_abort fs pre a post e Hr Hs
                 (check_file_unreadable fs _ e Ha)).
Qed.

(** With every selected file readable, no argument fails exactly when
    [check_file] returns [True] for each selected one. *)
Lemma none_fails_iff (args : list str) :
  all_readable fs args ->
  filter (fails fs) args = [] <->
  forall a, In a args -> selected a = true ->
    check_file fs (Path a) = Ok true.
Proof.
  intros Hr. split.
  - intros E a Hin Hs. destruct (Hr a Hin Hs) as [data Hd].
    destruct (readable_returns fs a data Hd) as [[|] Hb]; [exact Hb|].
    exfalso. apply (proj1 (filter_fails_nonempty fs args)); [|exact E].
    now exists a.
  - intros H. destruct (filter (fails fs) args) as [|x l] eqn:E; [reflexivity|].
    exfalso.
    assert (Hne : filter (fails fs) args <> []) by (rewrite E; discriminate).
    apply filter_fails_nonempty in Hne as (a & Hin & Hs & Hc).
    rewrite (H a Hin Hs) in Hc. discriminate.
Qed.

(** The run ends with exit status 0 exactly when [check_file] returns
    [True] for every selected argument. *)
Lemma exit_zero_iff (prog : str) (args : list str) :
  exit_status (status (main fs (prog :: args))) = 0%Z <->
  forall a, In a args -> selected a = true ->
    check_file fs (Path a) = Ok true.
Proof.
  destruct (readable_or_first_unreadable args)
    as [Hr|(pre & a & post & e & -> & Hr & Hs & Ha)].
  - rewrite (main_readable fs prog args Hr), <- (none_fails_iff args Hr).
    destruct (filter (fails fs) args); simpl; split;
      [reflexivity | reflexivity | discriminate | discriminate].
  - rewrite (main_unreadable prog pre a post e Hr Hs Ha). simpl. split.
    + discriminate.
    + intros H. specialize (H a (in_elt a pre post) Hs).
      rewrite (check_file_unreadable fs _ e Ha) in H. discriminate.
Qed.

End MainOutcomes.

(** Arguments that are not selected do not change what the loop does. *)
Lemma main_loop_filter (fs : filesystem) (args : list str) :
  forall failing log,
    main_loop fs (filter selected args) failing log
    = main_loop fs args failing log.
Proof.
  induction args as [|a args IH]; intros failing log; [reflexivity|].
  simpl. destruct (selected a) eqn:Es; simpl; [|apply IH].
  rewrite Es. simpl. destruct (check_file fs (Path a)) as [[|]|e]; simpl;
    [apply IH | apply IH | reflexivity].
Qed.

(** X6: the arguments whose name does not end with [.js], [.ts] or [.mjs]
    can be dropped from the command line without changing anything of the
    run: output, way of ending, and files opened. *)
Theorem main_ignores_unselected (fs : filesystem) (prog : str) (args : list str) :
  main fs (prog :: filter selected args) = main fs (prog :: args).
Proof. unfold main. simpl skipn. now rewrite main_loop_filter. Qed.

(** X7: the exit status is 0 exactly when [check_file] returns [True] for
    every selected argument, readable or not; the run then printed nothing
    and called [check_file] once on each selected argument, in order. *)
Theorem exit_zero_iff_all_pass (fs : filesystem) (prog : str) (args : list str) :
  let r := main fs (prog :: args) in
  (exit_status (status r) = 0%Z <->
   forall a, In a args -> selected a = true ->
     check_file fs (Path a) = Ok true)
  /\ (exit_status (status r) = 0%Z ->
      r = mkRun [] Completed (map Path (filter selected args))).
Proof.
  intros r. subst r. split; [apply exit_zero_iff|].
  destruct (readable_or_first_unreadable fs args)
    as [Hr|(pre & a & post & e & -> & Hr & Hs & Ha)].
  - rewrite (main_readable fs prog args Hr).
    destruct (filter (fails fs) args); simpl; [reflexivity | discriminate].
  - rewrite (main_unreadable fs prog pre a post e Hr Hs Ha). discriminate.
Qed.

(** X8: the run ends by an uncaught exception [e] exactly when some selected
    argument cannot be read, and [e] is the exception of the first such
    argument. *)
Theorem uncaught_iff_first_unreadable
    (fs : filesystem) (prog : str) (args : list str) (e : exn) :
  status (main fs (prog :: args)) = Uncaught e <->
  exists pre a post,
    args = pre ++ a :: post /\ all_readable fs pre
    /\ selected a = true /\ fs (fspath (Path a)) = Raise e.
Proof.
  split.
  - intros H. destruct (readable_or_first_unreadable fs args)
      as [Hr|(pre & a & post & e' & -> & Hr & Hs & Ha)].
    + rewrite (main_readable fs prog args Hr) in H.
      destruct (filter (fails fs) args); discriminate H.
    + rewrite (main_unreadable fs prog pre a post e' Hr Hs Ha) in H.
      injection H as ->. now exists pre, a, post.
  - intros (pre & a & post & -> & Hr & Hs & Ha).
    now rewrite (main_unreadable fs prog pre a post e Hr Hs Ha).
Qed.

(** X9: something is printed exactly when the run ends through
    [sys.exit(1)]; what is printed is then the banner followed by at least
    one failing argument, never the banner alone. *)
Theorem output_only_with_exit
    (fs : filesystem) (prog : str) (args : list str) :
  let r := main fs (prog :: args) in
  (stdout r <> [] <-> status r = SystemExit 1)
  /\ (stdout r = []
      \/ (stdout r = BANNER :: filter (fails fs) args
          /\ filter (fails fs) args <> [])).
Proof.
  intros r. subst r.
  destruct (readable_or_first_unreadable fs args)
    as [Hr|(pre & a & post & e & -> & Hr & Hs & Ha)].
  - rewrite (main_readable fs prog args Hr).
    destruct (filter (fails fs) args) as [|x l]; simpl; split.
    + split; [congruence | discriminate].
    + now left.
    + split; [reflexivity | discriminate].
    + right. split; [reflexivity | discriminate].
  - rewrite (main_unreadable fs prog pre a post e Hr Hs Ha). simpl. split.
    + split; [congruence | discriminate].
    + now left.
Qed.

(** With every selected file readable, the lines after the banner are the
    failing arguments. *)
Lemma reported_readable (fs : filesystem) (prog : str) (args : list str) :
  all_readable fs args ->
  skipn 1 (stdout (main fs (prog :: args))) = filter (fails fs) args.
Proof.
  intros Hr. rewrite (main_readable fs prog args Hr).
  now destruct (filter (fails fs) args).
Qed.

Lemma all_readable_app (fs : filesystem) (a1 a2 : list str) :
  all_readable fs (a1 ++ a2) <-> all_readable fs a1 /\ all_readable fs a2.
Proof.
  unfold all_readable. split.
  - intros H. split; intros a Ha; apply H; apply in_or_app; auto.
  - intros [H1 H2] a Ha. apply in_app_or in Ha as [Ha|Ha]; auto.
Qed.

(** X10: checking two lists of arguments in one run: the exit status is 0
    exactly when it is 0 for each list alone, and, with every selected file
    readable, the paths reported are those of the first list followed by
    those of the second. *)
Theorem batches_compose (fs : filesystem) (prog : str) (a1 a2 : list str) :
  (exit_status (status (main fs (prog :: a1 ++ a2))) = 0%Z <->
   exit_status (status (main fs (prog :: a1))) = 0%Z
   /\ exit_status (status (main fs (prog :: a2))) = 0%Z)
  /\ (all_readable fs (a1 ++ a2) ->
      skipn 1 (stdout (main fs (prog :: a1 ++ a2)))
      = skipn 1 (stdout (main fs (prog :: a1)))
        ++ skipn 1 (stdout (main fs (prog :: a2)))).
Proof.
  split.
  - rewrite !exit_zero_iff. split.
    + intros H. split; intros a Ha; apply H; apply in_or_app; auto.
    + intros [H1 H2] a Ha. apply in_app_or in Ha as [Ha|Ha]; auto.
  - intros Hr. pose proof (proj1 (all_readable_app fs a1 a2) Hr) as [H1 H2].
    rewrite !reported_readable by assumption. apply filter_app.
Qed.

Lemma batches_compose_witness :
  let a := lit "src/a.js" in
  let b := lit "src/b.ts" in
  let c := lit "src/c.mjs" in
  let fs := fs_of [(a, lit "let a;"); (b, JS_LICENSE_TEXT); (c, [])] in
  let prog := lit "license.py" in
  all_readable fs ([a; b] ++ [c])
  /\ stdout (main fs (prog :: [a; b])) = [BANNER; a]
  /\ stdout (main fs (prog :: [c])) = [BANNER; c]
  /\ skipn 1 (stdout (main fs (prog :: [a; b] ++ [c]))) = [a; c].
Proof.
  intros a b c fs prog.
  assert (Hr : all_readable fs ([a; b] ++ [c])).
  { intros x [<-|[<-|[<-|[]]]] _; eexists; vm_compute; reflexivity. }
  split; [exact Hr|]. split; [vm_compute; reflexivity|].
  split; [vm_compute; reflexivity|].
  etransitivity; [exact (proj2 (batches_compose fs prog [a; b] [c]) Hr)|].
  vm_compute; reflexivity.
Defined.

(** X11: [main] calls [check_file] only on selected arguments, in their
    order and once per occurrence: the calls are an initial part of the
    selected arguments, and all of them unless the run ends by an
    exception. *)
Theorem checked_are_selected (fs : filesystem) (prog : str) (args : list str) :
  let r := main fs (prog :: args) in
  exists rest,
    map Path (filter selected args) = checked r ++ rest
    /\ ((forall e, status r <> Uncaught e) -> rest = []).
Proof.
  intros r. subst r.
  destruct (readable_or_first_unreadable fs args)
    as [Hr|(pre & a & post & e & -> & Hr & Hs & Ha)].
  - exists []. rewrite (main_readable fs prog args Hr).
    destruct (filter (fails fs) args); simpl; now rewrite app_nil_r.
  - exists (map Path (filter selected post)).
    rewrite (main_unreadable fs prog pre a post e Hr Hs Ha). simpl. split.
    + rewrite filter_app. simpl. rewrite Hs, map_app, <- app_assoc.
      reflexivity.
    + intros H. now elim (H e).
Qed.

(** * The filter of [main] against the dispatch of [check_file] *)

Lemma rfind_app_last (c : char) (x rest : str) :
  rfind c rest = None -> rfind c (x ++ c :: rest) = Some (length x).
Proof.
  intros H. induction x as [|y x IH]; simpl.
  - now rewrite H, N.eqb_refl.
  - now rewrite IH.
Qed.

Lemma endswith_app (x s : str) : endswith (x ++ s) s = true.
Proof. unfold endswith. rewrite rev_app_distr. apply startswith_app. Qed.

Lemma endswith_split (n s : str) :
  endswith n s = true -> exists x, n = x ++ s.
Proof.
  unfold endswith. intros H. apply startswith_prefix in H as [t Ht].
  exists (rev t). rewrite <- (rev_involutive n), Ht, rev_app_distr.
  now rewrite rev_involutive.
Qed.

(** Each of the three suffixes is a dot followed by two or three characters
    without a dot. *)
Lemma JS_SUFFIXES_shape (s : str) :
  In s JS_SUFFIXES ->
  exists rest, s = DOT :: rest /\ rfind DOT rest = None
               /\ (2 <= length rest)%nat.
Proof.
  unfold JS_SUFFIXES. simpl In.
  intros [<-|[<-|[<-|[]]]]; eexists; (split; [reflexivity|]);
    split; try reflexivity; simpl; lia.
Qed.

(** A name made of something followed by one of the suffixes has that
    suffix. *)
Lemma suffix_of_name (p : PurePath) (x s : str) :
  In s JS_SUFFIXES -> x <> [] -> name p = x ++ s -> suffix p = s.
Proof.
  intros Hs Hx Hn. destruct (JS_SUFFIXES_shape s Hs) as (rest & -> & Hr & Hl).
  unfold suffix. rewrite Hn, (rfind_app_last DOT x rest Hr).
  assert (L0 : Nat.ltb 0 (length x) = true).
  { apply Nat.ltb_lt. destruct x; [congruence | simpl; lia]. }
  assert (L1 : Nat.ltb (length x) (length (x ++ DOT :: rest) - 1) = true).
  { apply Nat.ltb_lt. rewrite length_app. simpl. lia. }
  rewrite L0, L1. simpl andb. cbv iota.
  rewrite skipn_app, Nat.sub_diag, skipn_all. reflexivity.
Qed.

(** A suffix, when there is one, ends the name. *)
Lemma name_ends_with_suffix (p : PurePath) :
  suffix p <> [] -> exists x, name p = x ++ suffix p.
Proof.
  unfold suffix. destruct (rfind DOT (name p)) as [i|]; [|congruence].
  destruct (Nat.ltb 0 i && Nat.ltb i (length (name p) - 1)); [|congruence].
  intros _. exists (firstn i (name p)). symmetry. apply firstn_skipn.
Qed.

(** A selected argument has one of the three suffixes, or one of them as
    its whole name. *)
Lemma selected_cases (arg : str) :
  selected arg = true ->
  In (suffix (Path arg)) JS_SUFFIXES \/ In (name (Path arg)) JS_SUFFIXES.
Proof.
  unfold selected, endswith_any. rewrite existsb_exists.
  intros (s & Hs & He). apply endswith_split in He as [x Hx].
  destruct x as [|c x].
  - right. now rewrite Hx.
  - left. rewrite (suffix_of_name (Path arg) (c :: x) s Hs); [exact Hs| |exact Hx].
    discriminate.
Qed.

(** X12: the filter of [main] and the dispatch of [check_file] agree but for
    three names: an argument is selected exactly when the suffix of its path
    is [.js], [.ts] or [.mjs], or its whole name is one of these. *)
Theorem selected_iff_suffix (arg : str) :
  selected arg = true <->
  In (suffix (Path arg)) JS_SUFFIXES \/ In (name (Path arg)) JS_SUFFIXES.
Proof.
  split; [apply selected_cases|].
  unfold selected, endswith_any. rewrite existsb_exists.
  intros [Hs|Hn].
  - exists (suffix (Path arg)). split; [exact Hs|].
    destruct (name_ends_with_suffix (Path arg)) as [x Hx].
    { intros E. rewrite E in Hs. simpl in Hs.
      destruct Hs as [H|[H|[H|[]]]]; discriminate H. }
    rewrite Hx at 1. apply endswith_app.
  - exists (name (Path arg)). split; [exact Hn|].
    apply (endswith_app [] (name (Path arg))).
Qed.

(** A selected argument never has a suffix of the hash-comment family. *)
Lemma selected_not_py_yaml (arg : str) :
  selected arg = true -> str_in (suffix (Path arg)) PY_YAML_SUFFIXES = false.
Proof.
  intros H. apply selected_cases in H as [Hs|Hn].
  - apply families_disjoint. now apply str_in_In.
  - assert (E : suffix (Path arg) = []).
    { unfold suffix. simpl in Hn. destruct Hn as [<-|[<-|[<-|[]]]]; reflexivity. }
    now rewrite E.
Qed.

(** When [fails] holds for an argument: the C-style header is the only one
    [main] ever compares with. *)
Lemma fails_iff (fs : filesystem) (arg : str) :
  fails fs arg = true <->
  In (suffix (Path arg)) JS_SUFFIXES
  /\ ~ In (Path arg) EXCLUDES
  /\ exists data, fs (fspath (Path arg)) = Ok data
                  /\ forall t, strip data <> JS_LICENSE_TEXT ++ t.
Proof.
  unfold fails. split.
  - intros H. apply andb_true_iff in H as [Hsel Hc].
    destruct (fs (fspath (Path arg))) as [data|e] eqn:Hfs.
    2:{ rewrite (check_file_unreadable fs _ e Hfs) in Hc. discriminate. }
    rewrite (check_file_readable fs _ data Hfs) in Hc.
    rewrite (selected_not_py_yaml arg Hsel) in Hc.
    destruct (path_in (Path arg) EXCLUDES) eqn:Hin; [discriminate|].
    destruct (str_in (suffix (Path arg)) JS_SUFFIXES) eqn:Hjs;
      [|discriminate].
    destruct (startswith (strip data) JS_LICENSE_TEXT) eqn:Hst;
      [discriminate|].
    split; [now apply str_in_In|]. split.
    + intros Hp. apply path_in_In in Hp. congruence.
    + exists data. split; [reflexivity | now apply not_startswith_iff].
  - intros (Hs & Hex & data & Hfs & Hn).
    assert (Hsel : selected arg = true).
    { unfold selected, endswith_any. apply existsb_exists.
      exists (suffix (Path arg)). split; [exact Hs|].
      destruct (name_ends_with_suffix (Path arg)) as [x Hx].
      { intros E. rewrite E in Hs. simpl in Hs.
        destruct Hs as [H|[H|[H|[]]]]; discriminate H. }
      rewrite Hx at 1. apply endswith_app. }
    apply str_in_In in Hs. apply not_startswith_iff in Hn.
    now rewrite Hsel, (check_file_js fs _ data Hs Hfs),
      (path_in_not_In _ _ Hex), Hn.
Qed.

(** X13: what [main] reports.  A path printed after the banner is an
    argument with suffix [.js], [.ts] or [.mjs], not excluded, whose file
    is readable and does not start, once stripped, with the C-style header;
    with every selected file readable, each such argument is printed.  The
    hash-comment header plays no part in a run of [main]. *)
Theorem reported_iff
    (fs : filesystem) (prog : str) (args : list str) (x : str) :
  let reported := skipn 1 (stdout (main fs (prog :: args))) in
  let unheadered :=
    In x args
    /\ In (suffix (Path x)) JS_SUFFIXES
    /\ ~ In (Path x) EXCLUDES
    /\ exists data, fs (fspath (Path x)) = Ok data
                    /\ forall t, strip data <> JS_LICENSE_TEXT ++ t in
  (In x reported -> unheadered)
  /\ (all_readable fs args -> unheadered -> In x reported).
Proof.
  intros reported unheadered. subst reported unheadered. split.
  - destruct (readable_or_first_unreadable fs args)
      as [Hr|(pre & a & post & e & -> & Hr & Hs & Ha)].
    + rewrite (reported_readable fs prog args Hr), filter_In.
      intros [Hin Hf]. split; [exact Hin | now apply fails_iff].
    + rewrite (main_unreadable fs prog pre a post e Hr Hs Ha). intros [].
  - intros Hr [Hin Hu]. rewrite (reported_readable fs prog args Hr), filter_In.
    split; [exact Hin | now apply fails_iff].
Qed.

Lemma reported_iff_witness :
  let x := lit "web/app.mjs" in
  let y := lit "tools/gen.py" in
  let fs := fs_of [(x, PY_YAML_LICENSE_TEXT); (y, lit "print(1)")] in
  let prog := lit "license.py" in
  all_readable fs [y; x]
  /\ (In x [y; x]
      /\ In (suffix (Path x)) JS_SUFFIXES
      /\ ~ In (Path x) EXCLUDES
      /\ exists data, fs (fspath (Path x)) = Ok data
                      /\ forall t, strip data <> JS_LICENSE_TEXT ++ t)
  /\ In x (skipn 1 (stdout (main fs (prog :: [y; x])))).
Proof.
  intros x y fs prog.
  assert (Hr : all_readable fs [y; x]).
  { intros a [<-|[<-|[]]] _; eexists; vm_compute; reflexivity. }
  assert (Hu : In x [y; x]
      /\ In (suffix (Path x)) JS_SUFFIXES
      /\ ~ In (Path x) EXCLUDES
      /\ exists data, fs (fspath (Path x)) = Ok data
                      /\ forall t, strip data <> JS_LICENSE_TEXT ++ t).
  { split; [right; now left|]. split; [vm_compute; auto|]. split.
    - intros H. apply path_in_In in H. vm_compute in H. discriminate H.
    - exists PY_YAML_LICENSE_TEXT. split; [vm_compute; reflexivity|].
      apply not_startswith_iff. vm_compute; reflexivity. }
  split; [exact Hr|]. split; [exact Hu|].
  exact (proj2 (reported_iff fs prog [y; x] x) Hr Hu).
Defined.

(** * Paths: segments, names and the spelling that is opened *)

Lemma split_no_sep (c : char) (s : str) : ~ In c s -> split c s = [s].
Proof.
  induction s as [|x s IH]; intros H; simpl; [reflexivity|].
  assert (E : (x =? c) = false).
  { apply N.eqb_neq. intros ->. apply H. now left. }
  rewrite E, IH; [reflexivity|]. intros Hin. apply H. now right.
Qed.

Lemma split_segments_no_sep (c : char) (s seg : str) :
  In seg (split c s) -> ~ In c seg.
Proof.
  revert seg. induction s as [|x s IH]; intros seg; simpl.
  - intros [<-|[]] [].
  - destruct (x =? c) eqn:E.
    + intros [<-|H]; [intros [] | now apply IH].
    + apply N.eqb_neq in E. destruct (split c s) as [|h r] eqn:Es.
      * intros [<-|[]] [Hx|[]]. congruence.
      * intros [<-|H].
        -- intros [Hx|Hh]; [congruence|]. apply (IH h); [now left | exact Hh].
        -- apply IH. now right.
Qed.

Lemma lstrip_char_fixed (c : char) (s : str) :
  hd_error s <> Some c -> lstrip_char c s = s.
Proof.
  destruct s as [|x s]; simpl; [reflexivity|]. intros H.
  destruct (x =? c) eqn:E; [|reflexivity].
  apply N.eqb_eq in E. subst. now elim H.
Qed.

(** The segments of a path are those of the spelling without its leading
    separators. *)
Lemma Path_parts (s : str) :
  parts (Path s) = filter kept_segment (split SEP (lstrip_char SEP s)).
Proof.
  unfold Path, splitroot. destruct s as [|c s]; [reflexivity|].
  destruct (c =? SEP) eqn:E.
  - destruct (Nat.eqb _ 2); reflexivity.
  - cbn [lstrip_char]. rewrite E. reflexivity.
Qed.

Lemma str_eqb_neq (a b : str) : str_eqb a b = false <-> a <> b.
Proof.
  unfold str_eqb. destruct (list_eq_dec N.eq_dec a b); split;
    congruence.
Qed.

Lemma kept_segment_spec (x : str) :
  kept_segment x = true <-> x <> [] /\ x <> [DOT].
Proof.
  unfold kept_segment.
  now rewrite andb_true_iff, !negb_true_iff, !str_eqb_neq.
Qed.

Lemma no_sep_hd (base : str) :
  ~ In SEP base -> hd_error base <> Some SEP.
Proof.
  destruct base as [|c b]; simpl; [discriminate|].
  intros H [= ->]. apply H. now left.
Qed.

(** Stripping the leading separators of a spelling that ends in a
    separator-free segment leaves that segment at the end. *)
Lemma lstrip_char_keeps_last (dir base : str) :
  ~ In SEP base ->
  lstrip_char SEP (dir ++ SEP :: base) = base
  \/ exists d, lstrip_char SEP (dir ++ SEP :: base) = d ++ SEP :: base.
Proof.
  intros Hb. induction dir as [|x dir IH]; simpl.
  - left. apply lstrip_char_fixed. now apply no_sep_hd.
  - destruct (x =? SEP); [exact IH|]. right. now exists (x :: dir).
Qed.

(** X14: only the last segment of an argument decides whether it is
    selected: an argument that ends in a separator followed by a segment
    [base] (not empty, not ["."]) has [base] as its name and is selected
    exactly when [base] alone is. *)
Theorem directory_is_irrelevant (dir base : str) :
  base <> [] -> base <> [DOT] -> ~ In SEP base ->
  name (Path (dir ++ SEP :: base)) = base
  /\ selected (dir ++ SEP :: base) = selected base.
Proof.
  intros Hne Hdot Hsep.
  assert (Hk : kept_segment base = true) by now apply kept_segment_spec.
  assert (Hb : name (Path base) = base).
  { unfold name. rewrite Path_parts, lstrip_char_fixed by now apply no_sep_hd.
    rewrite (split_no_sep SEP base Hsep). simpl. now rewrite Hk. }
  assert (Hd : name (Path (dir ++ SEP :: base)) = base).
  { unfold name. rewrite Path_parts.
    destruct (lstrip_char_keeps_last dir base Hsep) as [E|[d E]]; rewrite E.
    - rewrite (split_no_sep SEP base Hsep). simpl. now rewrite Hk.
    - rewrite split_app_sep, (split_no_sep SEP base Hsep), filter_app.
      simpl. rewrite Hk. apply last_last. }
  split; [exact Hd|]. unfold selected. now rewrite Hd, Hb.
Qed.

Lemma directory_is_irrelevant_witness :
  let dir := lit "/repo//web/./src" in
  let base := lit "app.ts" in
  base <> [] /\ base <> [DOT] /\ ~ In SEP base
  /\ name (Path (dir ++ SEP :: base)) = base
  /\ selected (dir ++ SEP :: base) = true.
Proof.
  intros dir base.
  assert (Hne : base <> []) by discriminate.
  assert (Hdot : base <> [DOT]) by discriminate.
  assert (Hsep : ~ In SEP base).
  { vm_compute. intros H. repeat (destruct H as [H|H]; [discriminate H|]).
    exact H. }
  repeat (split; [assumption|]).
  destruct (directory_is_irrelevant dir base Hne Hdot Hsep) as [Hn Hs].
  split; [exact Hn|]. rewrite Hs. vm_compute; reflexivity.
Defined.

(** ** The spelling that is opened *)

(** Joining separator-free segments and splitting again gives them back. *)
Lemma split_join (c : char) (l : list str) :
  l <> [] -> (forall seg, In seg l -> ~ In c seg) ->
  split c (join c l) = l.
Proof.
  induction l as [|x l IH]; [congruence|]. intros _ H.
  destruct l as [|y l].
  - simpl. apply split_no_sep. apply H. now left.
  - change (join c (x :: y :: l)) with (x ++ c :: join c (y :: l)).
    rewrite split_app_sep, split_no_sep by (apply H; now left).
    rewrite IH; [reflexivity | discriminate | ].
    intros seg Hs. apply H. now right.
Qed.

Lemma filter_all_kept (l : list str) :
  (forall seg, In seg l -> kept_segment seg = true) ->
  filter kept_segment l = l.
Proof.
  induction l as [|x l IH]; intros H; simpl; [reflexivity|].
  rewrite (H x (or_introl eq_refl)), IH; [reflexivity|].
  intros seg Hs. apply H. now right.
Qed.

Lemma Path_well_formed (s : str) : well_formed (Path s).
Proof.
  split.
  - unfold Path, splitroot. destruct s as [|c s]; [now left|].
    destruct (c =? SEP); [|now left].
    destruct (Nat.eqb _ 2); simpl; auto.
  - intros seg. rewrite Path_parts, filter_In. intros [Hin Hk].
    split; [exact Hk|]. exact (split_segments_no_sep SEP _ seg Hin).
Qed.

(** The joined segments of a well-formed path do not start with a
    separator, and split back into the segments. *)
Lemma join_parts (l : list str) :
  (forall seg, In seg l -> kept_segment seg = true /\ ~ In SEP seg) ->
  hd_error (join SEP l) <> Some SEP
  /\ filter kept_segment (split SEP (join SEP l)) = l
  /\ (l <> [] -> join SEP l <> []).
Proof.
  intros H. destruct l as [|x l]; [repeat split; [discriminate | congruence]|].
  destruct (H x (or_introl eq_refl)) as [Hk Hs].
  apply kept_segment_spec in Hk as [Hne _].
  assert (Hj : exists c t, join SEP (x :: l) = c :: t /\ c <> SEP).
  { destruct x as [|c x]; [congruence|]. exists c.
    destruct l; simpl; eexists; (split; [reflexivity|]);
      intros ->; apply Hs; now left. }
  destruct Hj as (c & t & Hj & Hc). repeat split.
  - rewrite Hj. simpl. congruence.
  - rewrite split_join; [|discriminate|intros seg Hin; now apply H].
    apply filter_all_kept. intros seg Hin. now apply H.
  - rewrite Hj. discriminate.
Qed.

Lemma Path_fspath_well_formed (p : PurePath) :
  well_formed p -> Path (fspath p) = p.
Proof.
  destruct p as [r l]. intros [Hr Hl]. simpl in Hr, Hl.
  destruct (join_parts l Hl) as (Hhd & Hsplit & Hne).
  unfold fspath. simpl root. simpl parts.
  destruct Hr as [->|[->| ->]].
  - simpl app. destruct (join SEP l) as [|c t] eqn:Ej.
    + destruct l; [reflexivity | now elim Hne].
    + assert (Hc : (c =? SEP) = false).
      { apply N.eqb_neq. intros ->. now apply Hhd. }
      rewrite (Path_relative c t Hc). now rewrite Hsplit.
  - change ([SEP] ++ join SEP l) with (SEP :: join SEP l).
    unfold Path, splitroot. rewrite N.eqb_refl.
    cbn [lstrip_char]. rewrite N.eqb_refl, (lstrip_char_fixed SEP _ Hhd).
    replace (length (SEP :: join SEP l) - length (join SEP l))%nat with 1%nat
      by (cbn [length]; lia).
    simpl Nat.eqb. cbv iota. now rewrite Hsplit.
  - change ([SEP; SEP] ++ join SEP l) with (SEP :: SEP :: join SEP l).
    unfold Path, splitroot. rewrite N.eqb_refl.
    cbn [lstrip_char]. rewrite !N.eqb_refl, (lstrip_char_fixed SEP _ Hhd).
    replace (length (SEP :: SEP :: join SEP l) - length (join SEP l))%nat
      with 2%nat by (cbn [length]; lia).
    simpl Nat.eqb. cbv iota. now rewrite Hsplit.
Qed.

(** X15: the file [check_file] opens for an argument is named by the
    normal spelling of its path, and that spelling denotes the same path:
    parsing it gives the path back, and spelling the result again gives the
    same name. *)
Theorem opened_name_round_trip (arg : str) :
  Path (fspath (Path arg)) = Path arg
  /\ fspath (Path (fspath (Path arg))) = fspath (Path arg).
Proof.
  assert (E : Path (fspath (Path arg)) = Path arg)
    by (apply Path_fspath_well_formed, Path_well_formed).
  split; [exact E | now rewrite E].
Qed.

(** * The hash-comment family, and errors *)

(** X16: [check_file] raises exactly when the file cannot be read, with the
    exception of the read; this holds for excluded paths too, since the file
    is read before the exclusion list is looked at. *)
Theorem check_file_raises_iff (fs : filesystem) (p : PurePath) (e : exn) :
  check_file fs p = Raise e <-> fs (fspath p) = Raise e.
Proof.
  split.
  - intros H. destruct (fs (fspath p)) as [data|e'] eqn:Hfs.
    + rewrite (check_file_readable fs p data Hfs) in H.
      repeat match type of H with
             | (if ?c then _ else _) = _ => destruct c
             end; discriminate H.
    + rewrite (check_file_unreadable fs p e' Hfs) in H. now injection H as ->.
  - apply check_file_unreadable.
Qed.

(** X17: a file of the hash-comment family whose content is any whitespace,
    the hash-style header, and then any text, passes. *)
Theorem hash_style_header_passes
    (fs : filesystem) (p : PurePath) (w t : str) :
  In (suffix p) PY_YAML_SUFFIXES ->
  forallb isspace w = true ->
  fs (fspath p) = Ok (w ++ PY_YAML_LICENSE_TEXT ++ t) ->
  check_file fs p = Ok true.
Proof.
  intros Hs Hw Hfs. apply str_in_In in Hs.
  rewrite (check_file_py_yaml fs p _ Hs Hfs).
  replace (w ++ PY_YAML_LICENSE_TEXT ++ t)
    with (w ++ (PY_YAML_LICENSE_TEXT ++ t) ++ [])
    by now rewrite app_nil_r.
  rewrite (strip_padded w _ [] Hw eq_refl).
  destruct PY_YAML_LICENSE_TEXT_stripped as (Hne & Hl & Hr).
  rewrite (strip_app_fixed _ t Hne Hl Hr), startswith_app.
  now rewrite orb_true_r.
Qed.

Lemma hash_style_header_passes_witness :
  let p := Path (lit "stdlib/list.mojo") in
  let w := [NL; 32; 32; NL] in
  let t := NL :: lit "fn main(): pass" in
  let fs := fs_of [(lit "stdlib/list.mojo", w ++ PY_YAML_LICENSE_TEXT ++ t)] in
  In (suffix p) PY_YAML_SUFFIXES /\ forallb isspace w = true
  /\ check_file fs p = Ok true.
Proof.
  intros p w t fs.
  assert (Hs : In (suffix p) PY_YAML_SUFFIXES) by (vm_compute; auto).
  assert (Hw : forallb isspace w = true) by reflexivity.
  repeat (split; [assumption|]).
  apply (hash_style_header_passes fs p w t Hs Hw). vm_compute; reflexivity.
Defined.

(** X18: a file of the hash-comment family, not excluded, whose content is
    the hash-style header with the character at one index replaced by a
    different one, fails. *)
Theorem altered_hash_header_fails
    (fs : filesystem) (p : PurePath) (i : nat) (c : char) :
  In (suffix p) PY_YAML_SUFFIXES ->
  ~ In p EXCLUDES ->
  (i < length PY_YAML_LICENSE_TEXT)%nat ->
  c <> nth i PY_YAML_LICENSE_TEXT 0 ->
  fs (fspath p) =
    Ok (firstn i PY_YAML_LICENSE_TEXT ++ c :: skipn (S i) PY_YAML_LICENSE_TEXT) ->
  check_file fs p = Ok false.
Proof.
  intros Hs Hex Hi Hc Hfs. apply str_in_In in Hs.
  rewrite (check_file_py_yaml fs p _ Hs Hfs), (path_in_not_In p _ Hex).
  rewrite strip_not_startswith; [reflexivity | |].
  - now apply altered_length.
  - now apply altered_differs.
Qed.

Lemma altered_hash_header_fails_witness :
  let p := Path (lit "ci/build.yaml") in
  let i := 15%nat in
  let c : char := 61 in
  let fs := fs_of [(lit "ci/build.yaml",
                    firstn i PY_YAML_LICENSE_TEXT
                    ++ c :: skipn (S i) PY_YAML_LICENSE_TEXT)] in
  In (suffix p) PY_YAML_SUFFIXES /\ ~ In p EXCLUDES
  /\ (i < length PY_YAML_LICENSE_TEXT)%nat
  /\ c <> nth i PY_YAML_LICENSE_TEXT 0
  /\ check_file fs p = Ok false.
Proof.
  intros p i c fs.
  assert (Hs : In (suffix p) PY_YAML_SUFFIXES) by (vm_compute; auto).
  assert (Hex : ~ In p EXCLUDES).
  { intros H. apply path_in_In in H. vm_compute in H. discriminate H. }
  assert (Hi : (i < length PY_YAML_LICENSE_TEXT)%nat) by (vm_compute; lia).
  assert (Hc : c <> nth i PY_YAML_LICENSE_TEXT 0) by (vm_compute; discriminate).
  repeat (split; [assumption|]).
  apply (altered_hash_header_fails fs p i c Hs Hex Hi Hc).
  vm_compute; reflexivity.
Defined.
